(** * Chat session component: a shallow embedding of [Chat.tsx]

    The component keeps its state in React hooks and reacts to user events
    (submit, key presses, pin clicks, timers, settled network calls).  The
    embedding below follows the source handler by handler: the hook state is
    a record, every [setX] call is an update of that record, reads of
    captured variables go to the snapshot a handler closed over, and what the
    handler does to the outside world (alerts, downloads, network requests,
    timers) is recorded in an effect trace. *)

From Stdlib Require Import ZArith NArith Ascii String DecimalString.
From stdpp Require Import base option list gmap.

Set Warnings "-register-all".

(** ** JavaScript values used by the component *)

Module JS.

(** A JavaScript string is a sequence of UTF-16 code units. *)
Definition jsstring := list N.

(** Source literals are written as UTF-8 text; [js] turns such a literal
    into the code units the engine stores for it.  Truncated sequences
    decode to U+FFFD. *)
Fixpoint utf16_of_utf8 (bs : list N) : jsstring :=
  match bs with
  | [] => []
  | b0 :: t0 =>
    if (b0 <? 0x80)%N then b0 :: utf16_of_utf8 t0
    else match t0 with
    | [] => [0xFFFD%N]
    | b1 :: t1 =>
      if (b0 <? 0xE0)%N
      then ((b0 mod 32) * 64 + b1 mod 64)%N :: utf16_of_utf8 t1
      else match t1 with
      | [] => [0xFFFD%N]
      | b2 :: t2 =>
        if (b0 <? 0xF0)%N
        then ((b0 mod 16) * 4096 + (b1 mod 64) * 64 + b2 mod 64)%N
               :: utf16_of_utf8 t2
        else match t2 with
        | [] => [0xFFFD%N]
        | b3 :: t3 =>
          let cp := ((b0 mod 8) * 262144 + (b1 mod 64) * 4096
                     + (b2 mod 64) * 64 + b3 mod 64)%N in
          let v := (cp - 0x10000)%N in
          (0xD800 + v / 1024)%N :: (0xDC00 + v mod 1024)%N
            :: utf16_of_utf8 t3
        end
      end
    end
  end.

Definition js (s : string) : jsstring :=
  utf16_of_utf8 (N_of_ascii <$> list_ascii_of_string s).

(** The line feed written [\n] in source literals. *)
Definition LF : jsstring := [10%N].

(** [WhiteSpace] and [LineTerminator] code points of ECMAScript, the ones
    [String.prototype.trim] strips; all of them are single code units. *)
Definition is_whitespace (c : N) : bool :=
  ((9 <=? c) && (c <=? 13) || (c =? 0x20) || (c =? 0xA0) || (c =? 0x1680)
   || (0x2000 <=? c) && (c <=? 0x200A) || (c =? 0x2028) || (c =? 0x2029)
   || (c =? 0x202F) || (c =? 0x205F) || (c =? 0x3000) || (c =? 0xFEFF))%N.

Fixpoint trimStart (s : jsstring) : jsstring :=
  match s with
  | c :: s' => if is_whitespace c then trimStart s' else s
  | [] => []
  end.

Definition trimEnd (s : jsstring) : jsstring :=
  reverse (trimStart (reverse s)).

(** [s.trim()] *)
Definition trim (s : jsstring) : jsstring := trimEnd (trimStart s).

(** [s.startsWith('/')] *)
Definition startsWith_slash (s : jsstring) : bool :=
  match s with
  | c :: _ => (c =? 0x2F)%N
  | [] => false
  end.

(** [s.replace('/', '')]: a string pattern replaces its first occurrence
    only. *)
Fixpoint replace_slash (s : jsstring) : jsstring :=
  match s with
  | c :: s' => if (c =? 0x2F)%N then s' else c :: replace_slash s'
  | [] => []
  end.

(** Decimal rendering of a non-negative integer, as [`${n}`] gives it. *)
Definition decimal (n : nat) : jsstring :=
  js (NilEmpty.string_of_uint (Nat.to_uint n)).

(** Values produced by [JSON.parse].  A number is kept as the decimal
    literal [mant * 10^exp10] it was read from; an object keeps its
    members in source order. *)
Inductive json :=
| JNull
| JBool (b : bool)
| JNum (mant exp10 : Z)
| JStr (s : jsstring)
| JArr (items : list json)
| JObj (members : list (jsstring * json)).

(** [ToBoolean] of a parsed number: the literal is rounded to the nearest
    binary64 (ties to even), and only zero is falsy.  The literal rounds
    to zero exactly when its magnitude is at most [2^-1075]. *)
Definition number_truthy (mant exp10 : Z) : bool :=
  if (0 <=? exp10)%Z then negb (mant =? 0)%Z
  else (10 ^ (- exp10) <? Z.abs mant * 2 ^ 1075)%Z.

(** [ToBoolean] *)
Definition truthy (v : json) : bool :=
  match v with
  | JNull => false
  | JBool b => b
  | JNum m e => number_truthy m e
  | JStr s => match s with [] => false | _ => true end
  | JArr _ | JObj _ => true
  end.

(** Own-property read of a parsed object: a repeated member name keeps
    its last value. *)
Fixpoint member (k : jsstring) (ms : list (jsstring * json)) : option json :=
  match ms with
  | [] => None
  | (k', v) :: ms' =>
    match member k ms' with
    | Some w => Some w
    | None => if decide (k' = k) then Some v else None
    end
  end.

(** [v.name] for the member names the component reads ([candidates],
    [content], [parts], [text]); [None] is [undefined].  Arrays, strings,
    numbers and booleans have no property of these names; reading from
    [null] is left to the caller. *)
Definition get_named (k : jsstring) (v : json) : option json :=
  match v with
  | JObj ms => member k ms
  | _ => None
  end.

(** [v[0]] *)
Definition get_index0 (v : json) : option json :=
  match v with
  | JArr items => head items
  | JStr s => (fun c => JStr [c]) <$> head s
  | JObj ms => member (js "0") ms
  | _ => None
  end.

(** [o?.p]: [undefined] and [null] short-circuit to [undefined]. *)
Definition opt_chain (get : json -> option json) (o : option json)
  : option json :=
  match o with
  | None | Some JNull => None
  | Some v => get v
  end.

End JS.

(** ** The component *)

Module Chat.
Import JS.

(** *** Data model *)

Inductive Role := user | assistant | system.

#[global] Instance Role_eq_dec : EqDecision Role.
Proof. solve_decision. Defined.

(** [interface Message].  Optional fields are [None] when absent.  The
    interface types [content] as a string, but the completion path stores
    whatever value the response payload holds, so the field ranges over
    parsed values; every literal is a [JStr]. *)
Record Message := {
  role : Role;
  content : json;
  timestamp : option Z;
  isCommand : option bool;
  id : option jsstring;
  isPinned : option bool
}.

Record PromptTemplate := {
  name : jsstring;
  prompt : jsstring;
  category : jsstring
}.

(** The hook state of [Chat], one field per [useState].  [input] is
    [None] when the buffer holds [undefined], which an out-of-range
    history read would store. *)
Record State := {
  messages : list Message;
  input : option jsstring;
  isLoading : bool;
  inputHistory : list jsstring;
  historyIndex : Z;
  showTemplates : bool;
  showExport : bool;
  isListening : bool;
  isVoiceSupported : bool;
  showPinnedPanel : bool;
  pinnedMessages : list Message;
  theme : jsstring
}.

(** State once the mount effects have run: everything empty, except the
    theme and the pinned list, which come from local storage, and the
    voice flag, which the mount effect sets where the browser offers
    [SpeechRecognition]. *)
Definition initial (storedTheme : jsstring) (savedPinned : list Message)
    (speechRecognition : bool) : State :=
  {| messages := []; input := Some []; isLoading := false;
     inputHistory := []; historyIndex := -1; showTemplates := false;
     showExport := false; isListening := false;
     isVoiceSupported := speechRecognition;
     showPinnedPanel := false; pinnedMessages := savedPinned;
     theme := storedTheme |}.

(** What a handler does to the world outside the hook state. *)
Inductive TimerCallback := ApiKeyMissing.

Inductive Effect :=
| PreventDefault
| Alert (text : jsstring)
| Download (exported : list Message)
| RecognitionStart
| RecognitionStop
| Fetch (key prompt : jsstring)
| SetTimeout (callback : TimerCallback) (ms : Z)
| ConsoleError.

Inductive Exn :=
| TypeError
| SyntaxError
| NetworkError
| HttpError (status : Z).

Inductive Completion (A : Type) :=
| Normal (a : A)
| Throw (e : Exn).
Arguments Normal {A} a.
Arguments Throw {A} e.

Record World := { store : State; trace : list Effect }.

(** Handlers run in a state-and-exception monad over the world: a thrown
    exception keeps the updates queued before it. *)
Definition M (A : Type) : Type := World -> Completion A * World.

#[global] Instance M_ret : MRet M := fun A a w => (Normal a, w).

#[global] Instance M_bind : MBind M := fun A B f m w =>
  match m w with
  | (Normal a, w') => f a w'
  | (Throw e, w') => (Throw e, w')
  end.

Definition throw {A} (e : Exn) : M A := fun w => (Throw e, w).

(** [try { body } catch (error) { handler } finally { final }] *)
Definition try_catch_finally (body : M unit) (handler : Exn -> M unit)
    (final : M unit) : M unit := fun w =>
  match body w with
  | (Normal _, w') => final w'
  | (Throw e, w') =>
    match handler e w' with
    | (Normal _, w'') => final w''
    | (Throw e', w'') =>
      match final w'' with
      | (Normal _, w3) => (Throw e', w3)
      | thrown => thrown
      end
    end
  end.

Definition modify (f : State -> State) : M unit := fun w =>
  (Normal (), {| store := f (store w); trace := trace w |}).

Definition emit (e : Effect) : M unit := fun w =>
  (Normal (), {| store := store w; trace := trace w ++ [e] |}).

(** The world a handler leaves behind. *)
Definition exec {A} (m : M A) (w : World) : World := (m w).2.

Definition outcome {A} (m : M A) (w : World) : Completion A := (m w).1.

(** *** State setters.  A setter takes the updater function; a plain value
    [v] is the constant updater. *)

Definition setMessages (f : list Message -> list Message) : M unit :=
  modify (fun s =>
    {| messages := f (messages s); input := input s;
       isLoading := isLoading s; inputHistory := inputHistory s;
       historyIndex := historyIndex s; showTemplates := showTemplates s;
       showExport := showExport s; isListening := isListening s;
       isVoiceSupported := isVoiceSupported s;
       showPinnedPanel := showPinnedPanel s;
       pinnedMessages := pinnedMessages s; theme := theme s |}).

Definition setInput (v : option jsstring) : M unit :=
  modify (fun s =>
    {| messages := messages s; input := v;
       isLoading := isLoading s; inputHistory := inputHistory s;
       historyIndex := historyIndex s; showTemplates := showTemplates s;
       showExport := showExport s; isListening := isListening s;
       isVoiceSupported := isVoiceSupported s;
       showPinnedPanel := showPinnedPanel s;
       pinnedMessages := pinnedMessages s; theme := theme s |}).

Definition setIsLoading (v : bool) : M unit :=
  modify (fun s =>
    {| messages := messages s; input := input s;
       isLoading := v; inputHistory := inputHistory s;
       historyIndex := historyIndex s; showTemplates := showTemplates s;
       showExport := showExport s; isListening := isListening s;
       isVoiceSupported := isVoiceSupported s;
       showPinnedPanel := showPinnedPanel s;
       pinnedMessages := pinnedMessages s; theme := theme s |}).

Definition setInputHistory (f : list jsstring -> list jsstring) : M unit :=
  modify (fun s =>
    {| messages := messages s; input := input s;
       isLoading := isLoading s; inputHistory := f (inputHistory s);
       historyIndex := historyIndex s; showTemplates := showTemplates s;
       showExport := showExport s; isListening := isListening s;
       isVoiceSupported := isVoiceSupported s;
       showPinnedPanel := showPinnedPanel s;
       pinnedMessages := pinnedMessages s; theme := theme s |}).

Definition setHistoryIndex (v : Z) : M unit :=
  modify (fun s =>
    {| messages := messages s; input := input s;
       isLoading := isLoading s; inputHistory := inputHistory s;
       historyIndex := v; showTemplates := showTemplates s;
       showExport := showExport s; isListening := isListening s;
       isVoiceSupported := isVoiceSupported s;
       showPinnedPanel := showPinnedPanel s;
       pinnedMessages := pinnedMessages s; theme := theme s |}).

Definition setShowTemplates (v : bool) : M unit :=
  modify (fun s =>
    {| messages := messages s; input := input s;
       isLoading := isLoading s; inputHistory := inputHistory s;
       historyIndex := historyIndex s; showTemplates := v;
       showExport := showExport s; isListening := isListening s;
       isVoiceSupported := isVoiceSupported s;
       showPinnedPanel := showPinnedPanel s;
       pinnedMessages := pinnedMessages s; theme := theme s |}).

Definition setShowExport (v : bool) : M unit :=
  modify (fun s =>
    {| messages := messages s; input := input s;
       isLoading := isLoading s; inputHistory := inputHistory s;
       historyIndex := historyIndex s; showTemplates := showTemplates s;
       showExport := v; isListening := isListening s;
       isVoiceSupported := isVoiceSupported s;
       showPinnedPanel := showPinnedPanel s;
       pinnedMessages := pinnedMessages s; theme := theme s |}).

Definition setIsListening (v : bool) : M unit :=
  modify (fun s =>
    {| messages := messages s; input := input s;
       isLoading := isLoading s; inputHistory := inputHistory s;
       historyIndex := historyIndex s; showTemplates := showTemplates s;
       showExport := showExport s; isListening := v;
       isVoiceSupported := isVoiceSupported s;
       showPinnedPanel := showPinnedPanel s;
       pinnedMessages := pinnedMessages s; theme := theme s |}).

Definition setShowPinnedPanel (v : bool) : M unit :=
  modify (fun s =>
    {| messages := messages s; input := input s;
       isLoading := isLoading s; inputHistory := inputHistory s;
       historyIndex := historyIndex s; showTemplates := showTemplates s;
       showExport := showExport s; isListening := isListening s;
       isVoiceSupported := isVoiceSupported s;
       showPinnedPanel := v;
       pinnedMessages := pinnedMessages s; theme := theme s |}).

Definition setPinnedMessages (f : list Message -> list Message) : M unit :=
  modify (fun s =>
    {| messages := messages s; input := input s;
       isLoading := isLoading s; inputHistory := inputHistory s;
       historyIndex := historyIndex s; showTemplates := showTemplates s;
       showExport := showExport s; isListening := isListening s;
       isVoiceSupported := isVoiceSupported s;
       showPinnedPanel := showPinnedPanel s;
       pinnedMessages := f (pinnedMessages s); theme := theme s |}).

Definition setTheme (f : jsstring -> jsstring) : M unit :=
  modify (fun s =>
    {| messages := messages s; input := input s;
       isLoading := isLoading s; inputHistory := inputHistory s;
       historyIndex := historyIndex s; showTemplates := showTemplates s;
       showExport := showExport s; isListening := isListening s;
       isVoiceSupported := isVoiceSupported s;
       showPinnedPanel := showPinnedPanel s;
       pinnedMessages := pinnedMessages s; theme := f (theme s) |}).

(** *** Platform and environment *)

(** Library functions whose tables are the platform's: Unicode case
    conversion and locale date formatting. *)
Class Runtime := {
  toLowerCase : jsstring -> jsstring;
  toLocaleString : Z -> jsstring
}.

(** A runtime to evaluate examples on: it lower-cases the letters A to Z
    and prints a date as its epoch milliseconds. *)
Definition plain_runtime : Runtime :=
  {| toLowerCase := fmap (fun c =>
       if ((0x41 <=? c) && (c <=? 0x5A))%N then (c + 32)%N else c);
     toLocaleString := fun t => decimal (Z.to_nat t) |}.

(** What one run of a handler reads from outside: the clock ([new Date()],
    [Date.now()]), the identifier [generateMessageId] returns, the
    configured API key ([import.meta.env.VITE_GEMINI_API_KEY]) and whether
    [recognitionRef.current] holds a recogniser. *)
Record Env := {
  now : Z;
  freshId : jsstring;
  apiKey : option jsstring;
  recognition : bool
}.

(** [arr[i]] for a numeric index; [None] is [undefined]. *)
Definition index {A} (arr : list A) (i : Z) : option A :=
  if (i <? 0)%Z then None else arr !! Z.to_nat i.

(** [arr.join(sep)] *)
Fixpoint join (sep : jsstring) (arr : list jsstring) : jsstring :=
  match arr with
  | [] => []
  | [x] => x
  | x :: rest => x ++ sep ++ join sep rest
  end.

(** [!message.id], [message.isPinned] as conditions. *)
Definition has_id (m : Message) : bool :=
  match id m with
  | Some (_ :: _) => true
  | _ => false
  end.

Definition pinned_flag (m : Message) : bool :=
  match isPinned m with
  | Some b => b
  | None => false
  end.

(** [{ ...m, isPinned: b }] *)
Definition with_isPinned (b : bool) (m : Message) : Message :=
  {| role := role m; content := content m; timestamp := timestamp m;
     isCommand := isCommand m; id := id m; isPinned := Some b |}.

Definition promptTemplates : list PromptTemplate := [
  {| name := js "Code Review";
     prompt := js "Please review this code and provide feedback on best practices, potential bugs, and improvements:";
     category := js "Development" |};
  {| name := js "Writing Assistant";
     prompt := js "Help me write a professional email about:";
     category := js "Writing" |};
  {| name := js "Problem Solver";
     prompt := js "I'm facing this problem: [describe your problem]. Can you help me brainstorm solutions?";
     category := js "General" |};
  {| name := js "Learning Helper";
     prompt := js "Explain [topic] in simple terms with examples:";
     category := js "Education" |};
  {| name := js "Creative Writing";
     prompt := js "Write a short story about:";
     category := js "Creative" |};
  {| name := js "Data Analysis";
     prompt := js "Analyze this data and provide insights:";
     category := js "Analytics" |}
].

Definition helpText : jsstring := js "Available Commands:
        
📋 **/help** - Show this help message
🗑️ **/clear** - Clear all messages
ℹ️ **/about** - About this chat application
🎨 **/theme** - Toggle between light/dark theme
💾 **/save** - Export current chat
📊 **/stats** - Show chat statistics
🔄 **/reset** - Reset chat and start fresh
📝 **/templates** - Show prompt templates
🎤 **/voice** - Toggle voice input (if supported)
📌 **/pinned** - Show pinned messages panel

Type any command to execute it!".

Definition aboutText : jsstring := js "🤖 **AI Chat Assistant**
        
Built with React + TypeScript + Tailwind CSS
Powered by Google Gemini AI API

Features:
• 💬 Real-time chat with AI
• 🎤 Voice input support
• 📝 Prompt templates
• 📤 Chat export
• 🎨 Dark/light theme
• ⌨️ Slash commands
• 📌 Pinned messages
• 📱 Responsive design

Version: 1.0.0
Made with ❤️ for better AI interactions".

(** *** Handlers

    A handler is a closure created by one render: [cl] is the hook state
    that render saw, and the variables the source reads without a setter
    ([messages], [input], [theme], ...) are fields of [cl].  Updater
    functions passed to setters act on the queued state instead. *)

Section Handlers.
Context {rt : Runtime} (env : Env) (cl : State).

Definition generateMessageId : jsstring := freshId env.

(** The feedback record every command appends:
    [{ role: 'system', content, timestamp: new Date(), isCommand: true,
       id: generateMessageId() }]. *)
Definition commandMessage (text : jsstring) : Message :=
  {| role := system; content := JStr text; timestamp := Some (now env);
     isCommand := Some true; id := Some generateMessageId;
     isPinned := None |}.

Definition toggleTheme : M unit :=
  setTheme (fun prevTheme =>
    if decide (prevTheme = js "light") then js "dark" else js "light").

(** [chatContent] is a rendering of [messages] with the locale's date
    format; the download effect records the messages it is built
    from. *)
Definition exportChat : M unit :=
  if decide (length (messages cl) = 0) then
    emit (Alert (js "No messages to export!"))
  else
    emit (Download (messages cl));;
    setShowExport false.

Definition startListening : M unit :=
  if negb (isVoiceSupported cl) || negb (recognition env) then
    emit (Alert (js "Speech recognition is not supported in your browser. Please use Chrome, Edge, or Safari."))
  else
    setIsListening true;;
    emit RecognitionStart.

Definition stopListening : M unit :=
  if recognition env then
    emit RecognitionStop;;
    setIsListening false
  else mret ().

(** An entry of [slashCommands]. *)
Record Command := {
  description : jsstring;
  usage : jsstring;
  action : M unit
}.

Definition help : Command :=
  {| description := js "Show available commands";
     usage := js "/help";
     action :=
       setMessages (fun prev => prev ++ [commandMessage helpText]) |}.

Definition clear : Command :=
  {| description := js "Clear all messages";
     usage := js "/clear";
     action :=
       setMessages (fun _ => []);;
       setMessages (fun prev => prev ++
         [commandMessage (js "🗑️ Chat cleared successfully!")]) |}.

Definition about : Command :=
  {| description := js "About this application";
     usage := js "/about";
     action :=
       setMessages (fun prev => prev ++ [commandMessage aboutText]) |}.

Definition theme_command : Command :=
  {| description := js "Toggle theme";
     usage := js "/theme";
     action :=
       toggleTheme;;
       setMessages (fun prev => prev ++
         [commandMessage (js "🎨 Theme switched to "
            ++ (if decide (theme cl = js "light")
                then js "dark" else js "light")
            ++ js " mode!")]) |}.

Definition save : Command :=
  {| description := js "Export chat";
     usage := js "/save";
     action :=
       exportChat;;
       setMessages (fun prev => prev ++
         [commandMessage (js "💾 Chat exported successfully!")]) |}.

Definition statsText : jsstring :=
  let userMessages := length (filter (fun m => role m = user) (messages cl)) in
  let assistantMessages :=
    length (filter (fun m => role m = assistant) (messages cl)) in
  let systemMessages :=
    length (filter (fun m => role m = system) (messages cl)) in
  let totalMessages := length (messages cl) in
  js "📊 **Chat Statistics**
        
Total Messages: " ++ decimal totalMessages ++ js "
User Messages: " ++ decimal userMessages ++ js "
AI Responses: " ++ decimal assistantMessages ++ js "
System Messages: " ++ decimal systemMessages ++ js "
Pinned Messages: " ++ decimal (length (pinnedMessages cl)) ++ js "

Session started: " ++
  match messages cl with
  | first :: _ => toLocaleString (default (now env) (timestamp first))
  | [] => js "N/A"
  end.

Definition stats : Command :=
  {| description := js "Show chat statistics";
     usage := js "/stats";
     action :=
       setMessages (fun prev => prev ++ [commandMessage statsText]) |}.

Definition reset : Command :=
  {| description := js "Reset chat";
     usage := js "/reset";
     action :=
       setMessages (fun _ => []);;
       setInputHistory (fun _ => []);;
       setHistoryIndex (-1);;
       setMessages (fun prev => prev ++
         [commandMessage (js "🔄 Chat reset successfully! Ready for a fresh conversation.")]) |}.

Definition templatesText : jsstring :=
  js "📝 **Available Prompt Templates**
        
" ++ join (LF ++ LF)
    ((fun template =>
        js "**" ++ name template ++ js "** (" ++ category template
        ++ js ")
  " ++ prompt template) <$> promptTemplates) ++ js "

Click the 📝 button in the header to use these templates!".

Definition templates : Command :=
  {| description := js "Show prompt templates";
     usage := js "/templates";
     action :=
       setMessages (fun prev => prev ++ [commandMessage templatesText]) |}.

Definition voice : Command :=
  {| description := js "Toggle voice input";
     usage := js "/voice";
     action :=
       if negb (isVoiceSupported cl) then
         setMessages (fun prev => prev ++
           [commandMessage (js "🎤 Voice input is not supported in your browser. Please use Chrome, Edge, or Safari.")])
       else if isListening cl then
         stopListening;;
         setMessages (fun prev => prev ++
           [commandMessage (js "🎤 Voice input stopped.")])
       else
         startListening;;
         setMessages (fun prev => prev ++
           [commandMessage (js "🎤 Voice input started. Speak now!")]) |}.

Definition pinned : Command :=
  {| description := js "Show pinned messages panel";
     usage := js "/pinned";
     action :=
       setShowPinnedPanel (negb (showPinnedPanel cl));;
       setMessages (fun prev => prev ++
         [commandMessage (js "📌 Pinned messages panel "
            ++ (if showPinnedPanel cl then js "hidden" else js "shown")
            ++ js "!")]) |}.

(** The own properties of the [slashCommands] object. *)
Definition slashCommands : gmap jsstring Command :=
  list_to_map [
    (js "help", help); (js "clear", clear); (js "about", about);
    (js "theme", theme_command); (js "save", save); (js "stats", stats);
    (js "reset", reset); (js "templates", templates);
    (js "voice", voice); (js "pinned", pinned) ].

(** [slashCommands] is an object literal, so a property read that finds
    no own property continues in [Object.prototype].  These are its
    property names; each holds a function, or for [__proto__] the
    prototype object itself: a truthy value without an [action]. *)
Definition Object_prototype : list jsstring :=
  js <$> [ "constructor"; "__defineGetter__"; "__defineSetter__";
           "hasOwnProperty"; "__lookupGetter__"; "__lookupSetter__";
           "isPrototypeOf"; "propertyIsEnumerable"; "toString";
           "valueOf"; "__proto__"; "toLocaleString" ]%string.

Inductive Property :=
| Own (c : Command)
| Inherited
| Undefined.

(** [slashCommands[commandKey]] *)
Definition slashCommands_get (commandKey : jsstring) : Property :=
  match slashCommands !! commandKey with
  | Some c => Own c
  | None =>
    if decide (commandKey ∈ Object_prototype) then Inherited
    else Undefined
  end.

Definition handleSlashCommand (command : jsstring) : M bool :=
  let cmd := trim (toLowerCase command) in
  let commandKey := replace_slash cmd in
  match slashCommands_get commandKey with
  | Own c =>
    action c;;
    mret true
  | Inherited =>
    (* the condition holds, and calling the missing [action] throws *)
    throw TypeError
  | Undefined =>
    setMessages (fun prev => prev ++
      [commandMessage (js "❌ Unknown command: " ++ command ++ LF
         ++ js "Type /help to see available commands.")]);;
    mret true
  end.

Definition togglePinMessage (message : Message) : M unit :=
  if negb (has_id message) then mret ()
  else if pinned_flag message then
    setPinnedMessages (fun prev =>
      filter (fun m => id m ≠ id message) prev);;
    setMessages (fun prev =>
      (fun m => if decide (id m = id message)
                then with_isPinned false m else m) <$> prev)
  else
    let messageToPin := with_isPinned true message in
    setPinnedMessages (fun prev => prev ++ [messageToPin]);;
    setMessages (fun prev =>
      (fun m => if decide (id m = id message)
                then with_isPinned true m else m) <$> prev).

Inductive Key := ArrowUp | ArrowDown | OtherKey.

Definition handleKeyDown (key : Key) : M unit :=
  let length := Z.of_nat (length (inputHistory cl)) in
  match key with
  | ArrowUp =>
    emit PreventDefault;;
    if (historyIndex cl <? length - 1)%Z then
      let newIndex := (historyIndex cl + 1)%Z in
      setHistoryIndex newIndex;;
      setInput (index (inputHistory cl) (length - 1 - newIndex))
    else if ((historyIndex cl =? -1) && (0 <? length))%Z then
      setHistoryIndex 0;;
      setInput (index (inputHistory cl) (length - 1))
    else mret ()
  | ArrowDown =>
    emit PreventDefault;;
    if (0 <? historyIndex cl)%Z then
      let newIndex := (historyIndex cl - 1)%Z in
      setHistoryIndex newIndex;;
      setInput (index (inputHistory cl) (length - 1 - newIndex))
    else if (historyIndex cl =? 0)%Z then
      setHistoryIndex (-1);;
      setInput (Some [])
    else mret ()
  | OtherKey => mret ()
  end.

Definition handleTemplateSelect (template : PromptTemplate) : M unit :=
  setInput (Some (prompt template));;
  setShowTemplates false.

(** *** Submission *)

(** Where [handleSubmit] stops on its first pass: it returned, it left
    a timer behind, or it awaits the request it issued. *)
Inductive Suspension := Returned | TimerPending | FetchPending.

Definition assistantMessage (generatedText : json) : Message :=
  {| role := assistant; content := generatedText;
     timestamp := Some (now env); isCommand := None;
     id := Some generateMessageId; isPinned := None |}.

Definition key_present : option jsstring :=
  match apiKey env with
  | Some (c :: k) => Some (c :: k)
  | _ => None
  end.

(** [handleSubmit] up to its first [await]. *)
Definition handleSubmit : M Suspension :=
  emit PreventDefault;;
  match input cl with
  | None => throw TypeError
  | Some input =>
    if decide (trim input = []) then mret Returned
    else
      isCommand ← (if startsWith_slash input
                   then handleSlashCommand input else mret false);
      if (isCommand : bool) then
        setInput (Some []);;
        mret Returned
      else
        let userMessage :=
          {| role := user; content := JStr input;
             timestamp := Some (now env); isCommand := None;
             id := Some generateMessageId; isPinned := None |} in
        setMessages (fun prev => prev ++ [userMessage]);;
        (if decide (head (inputHistory cl) ≠ Some (trim input))
         then setInputHistory (fun prev => trim input :: prev)
         else mret ());;
        setHistoryIndex (-1);;
        setInput (Some []);;
        setIsLoading true;;
        match key_present with
        | None =>
          emit (SetTimeout ApiKeyMissing 1000);;
          mret TimerPending
        | Some key =>
          emit (Fetch key input);;
          mret FetchPending
        end
  end.

(** The callback of the timer set when the key is missing. *)
Definition run_timer (callback : TimerCallback) : M unit :=
  match callback with
  | ApiKeyMissing =>
    setMessages (fun prev => prev ++
      [assistantMessage (JStr (js "API key not found. Set VITE_GEMINI_API_KEY in your .env file."))]);;
    setIsLoading false
  end.

(** What the request settles to.  A body read is [None] when the read
    rejects; for [json] that includes a body that is not JSON. *)
Record Response := {
  status : Z;
  text : option jsstring;
  json_body : option json
}.

Inductive FetchResult :=
| Rejected
| Resolved (response : Response).

(** [response.ok] *)
Definition ok (response : Response) : bool :=
  ((200 <=? status response) && (status response <=? 299))%Z.

(** [data.candidates?.[0]?.content?.parts?.[0]?.text] on a payload
    other than [null]; [None] is [undefined], the field is absent. *)
Definition text_field (data : json) : option json :=
  opt_chain (get_named (js "text"))
    (opt_chain get_index0
      (opt_chain (get_named (js "parts"))
        (opt_chain (get_named (js "content"))
          (opt_chain get_index0
            (get_named (js "candidates") data))))).

(** The same expression as the handler evaluates it: the first read,
    [data.candidates], is not optional and throws on [null]. *)
Definition generated_field (data : json) : M (option json) :=
  match data with
  | JNull => throw TypeError
  | _ => mret (text_field data)
  end.

(** [value || 'No response from model.'] *)
Definition or_placeholder (value : option json) : json :=
  match value with
  | Some v => if truthy v then v else JStr (js "No response from model.")
  | None => JStr (js "No response from model.")
  end.

(** [handleSubmit] from the settled [fetch] on. *)
Definition handleSubmit_settled (result : FetchResult) : M unit :=
  try_catch_finally
    (response ← match result with
                | Rejected => throw NetworkError
                | Resolved response => mret response
                end;
     (if negb (ok response) then
        match text response with
        | None => throw TypeError
        | Some errorText => throw (HttpError (status response))
        end
      else mret ());;
     data ← match json_body response with
            | None => throw SyntaxError
            | Some data => mret data
            end;
     field ← generated_field data;
     let generatedText := or_placeholder field in
     setMessages (fun prev => prev ++ [assistantMessage generatedText]))
    (fun error =>
       emit ConsoleError;;
       setMessages (fun prev => prev ++
         [assistantMessage (JStr (js "Sorry, I encountered an error. Please try again."))]))
    (setIsLoading false).

End Handlers.

(** *** Notions the properties are stated with *)

(** The pin invariant: a message of the main list has its flag set
    exactly when the pinned list holds a message with the same [id]. *)
Definition pin_consistent (s : State) : Prop :=
  Forall (fun m =>
    pinned_flag m = true <-> Exists (fun p => id p = id m) (pinnedMessages s))
    (messages s).

(** A run of Toggle Pin calls, one per message of [calls]. *)
Definition togglePins (calls : list Message) (w : World) : World :=
  foldl (fun w message => exec (togglePinMessage message) w) w calls.

(** Effects that reach the remote completion endpoint. *)
Definition is_request (e : Effect) : bool :=
  match e with
  | Fetch _ _ => true
  | _ => false
  end.



(** The assistant message shown for every failure of the call, and the
    text that stands in for a missing completion. *)
Definition apology (env : Env) : Message :=
  assistantMessage env
    (JStr (js "Sorry, I encountered an error. Please try again.")).


(** [needle] occurs in [text] as a contiguous run of code units. *)
Definition contains (needle text : jsstring) : Prop :=
  exists before after, text = before ++ needle ++ after.

(** *** The component as a transition system *)

Inductive Event :=
| Submit
| KeyDown (key : Key)
| Change (value : jsstring)
| TemplateSelect (template : PromptTemplate)
| TogglePin (message : Message)
| TimerFired (callback : TimerCallback)
| FetchSettled (result : FetchResult).

(** The handler an event runs, created by the render that saw [cl]. *)
Definition handler `{Runtime} (env : Env) (cl : State) (ev : Event)
  : M unit :=
  match ev with
  | Submit => handleSubmit env cl;; mret ()
  | KeyDown key => handleKeyDown cl key
  | Change value => setInput (Some value)
  | TemplateSelect template => handleTemplateSelect template
  | TogglePin message => togglePinMessage message
  | TimerFired callback => run_timer env callback
  | FetchSettled result => handleSubmit_settled env result
  end.

(** One event: the handler of the current render runs on the world. *)
Definition step `{Runtime} (env : Env) (ev : Event) (w : World) : World :=
  exec (handler env (store w) ev) w.

(** One press of ArrowUp ("previous"), handled by the current render. *)
Definition arrowUp `{Runtime} (env : Env) : World -> World :=
  step env (KeyDown ArrowUp).

(** A run of the component: the events in order, each with the
    environment its handler reads. *)
Definition run `{Runtime} (events : list (Env * Event)) (w : World) : World :=
  foldl (fun w '(env, ev) => step env ev w) w events.

(** The identifier the environment hands out is not the id of a pinned
    message. *)
Definition fresh_for (env : Env) (s : State) : Prop :=
  Forall (fun p => id p <> Some (freshId env)) (pinnedMessages s).

(** The history cursor is at rest (-1) or points into the history, and
    the input buffer holds a string. *)
Definition cursor_in_range (s : State) : Prop :=
  (-1 <= historyIndex s < Z.of_nat (length (inputHistory s)))%Z
  /\ is_Some (input s).

(** *** Speech recognition callbacks

    [startListening] installs three callbacks on the recogniser; they run
    later, when the recogniser reports. *)

(** [setInput] with an updater function. *)
Definition setInputWith (f : option jsstring -> option jsstring) : M unit :=
  modify (fun s =>
    {| messages := messages s; input := f (input s);
       isLoading := isLoading s; inputHistory := inputHistory s;
       historyIndex := historyIndex s; showTemplates := showTemplates s;
       showExport := showExport s; isListening := isListening s;
       isVoiceSupported := isVoiceSupported s;
       showPinnedPanel := showPinnedPanel s;
       pinnedMessages := pinnedMessages s; theme := theme s |}).

(** [prev + transcript]; an [undefined] buffer concatenates as the text
    ["undefined"]. *)
Definition plus_transcript (transcript : jsstring) (prev : option jsstring)
  : option jsstring :=
  Some (default (js "undefined") prev ++ transcript).

(** [onresult], given [event.results[0][0].transcript]. *)
Definition onresult (transcript : jsstring) : M unit :=
  setInputWith (plus_transcript transcript);;
  setIsListening false.

(** [onerror], given [event.error]. *)
Definition onerror (error : jsstring) : M unit :=
  emit ConsoleError;;
  setIsListening false;;
  if decide (error = js "no-speech") then
    emit (Alert (js "No speech detected. Please try again."))
  else mret ().

Definition onend : M unit := setIsListening false.



(** The entries of the history are what Submit stores: trimmed texts that
    are not blank, and never the same text twice in a row. *)
Fixpoint no_repeat (history : list jsstring) : Prop :=
  match history with
  | newest :: (previous :: _) as older => newest <> previous /\ no_repeat older
  | _ => True
  end.

Definition history_well_formed (history : list jsstring) : Prop :=
  Forall (fun entry => entry <> [] /\ trim entry = entry) history
  /\ no_repeat history.

(** A text with no white space at its start. *)
Definition clean_head (s : jsstring) : Prop :=
  match s with
  | c :: _ => is_whitespace c = false
  | [] => True
  end.

(** What a message is apart from its pin flag. *)
Definition unflagged (m : Message)
  : Role * json * option Z * option bool * option jsstring :=
  (role m, content m, timestamp m, isCommand m, id m).

(** [n] presses of ArrowUp. *)
Definition arrowUps `{Runtime} (env : Env) (n : nat) (w : World) : World :=
  Nat.iter n (arrowUp env) w.

(** One press of ArrowDown ("next"), handled by the current render. *)
Definition arrowDown `{Runtime} (env : Env) : World -> World :=
  step env (KeyDown ArrowDown).

(** A Toggle Pin call as the interface can issue it: on a message of the
    rendered main list, or on an entry of the pinned panel, which the
    panel shows as pinned. *)
Definition rendered (s : State) (message : Message) : Prop :=
  message ∈ messages s
  \/ (message ∈ pinnedMessages s /\ pinned_flag message = true).

(** No two pinned entries share an id. *)
Definition pinned_ids_distinct (s : State) : Prop :=
  NoDup (id <$> pinnedMessages s).

End Chat.

(** ** The long-press timer of the message list

    A press on a message arms a 500 ms timer whose callback toggles the
    pin of that message; releasing or leaving cancels it.  The timers are
    the platform's table of pending callbacks, keyed by the positive
    identifiers [setTimeout] hands out. *)

Module LongPress.
Import JS Chat.

Record Timers := {
  pending : gmap positive (Message * Z);
  next : positive
}.

(** [setTimeout(() => togglePinMessage(message), ms)]: a new identifier,
    and the callback, here the message it will toggle, becomes pending. *)
Definition setTimeout (message : Message) (ms : Z) (t : Timers)
  : positive * Timers :=
  (next t,
   {| pending := <[next t := (message, ms)]> (pending t);
      next := (next t + 1)%positive |}).

(** [clearTimeout(id)]: nothing happens for an identifier that is not
    pending. *)
Definition clearTimeout (timer : positive) (t : Timers) : Timers :=
  {| pending := delete timer (pending t); next := next t |}.

(** The [longPressTimer] hook and the platform's timers. *)
Record Press := {
  longPressTimer : option positive;
  timers : Timers
}.

Definition idle : Press :=
  {| longPressTimer := None;
     timers := {| pending := ∅; next := 1%positive |} |}.

Definition handleMouseDown (message : Message) (p : Press) : Press :=
  let t := match longPressTimer p with
           | Some timer => clearTimeout timer (timers p)
           | None => timers p
           end in
  let '(timer, t') := setTimeout message 500 t in
  {| longPressTimer := Some timer; timers := t' |}.

Definition handleMouseUp (p : Press) : Press :=
  match longPressTimer p with
  | Some timer =>
    {| longPressTimer := None; timers := clearTimeout timer (timers p) |}
  | None => p
  end.

Definition handleMouseLeave (p : Press) : Press :=
  match longPressTimer p with
  | Some timer =>
    {| longPressTimer := None; timers := clearTimeout timer (timers p) |}
  | None => p
  end.

(** The platform runs a pending timer: it leaves the table, and its
    callback calls [togglePinMessage] on the message it closed over.  The
    hook still holds the identifier afterwards. *)
Definition fire (timer : positive) (p : Press) : option Message * Press :=
  match pending (timers p) !! timer with
  | Some (message, _) =>
    (Some message,
     {| longPressTimer := longPressTimer p;
        timers := clearTimeout timer (timers p) |})
  | None => (None, p)
  end.

(** What can happen to a message row; [onTouchStart] and [onTouchEnd] run
    the mouse handlers. *)
Inductive Gesture :=
| Down (message : Message)
| Up
| Leave
| Elapsed (timer : positive).

Definition react (g : Gesture) (p : Press) : Press :=
  match g with
  | Down message => handleMouseDown message p
  | Up => handleMouseUp p
  | Leave => handleMouseLeave p
  | Elapsed timer => (fire timer p).2
  end.

Definition gestures (gs : list Gesture) (p : Press) : Press :=
  foldl (fun p g => react g p) p gs.

(** Every pending timer is the one the hook remembers, and identifiers
    not yet handed out are not pending. *)
Definition tracked (p : Press) : Prop :=
  forall timer entry,
    pending (timers p) !! timer = Some entry ->
    longPressTimer p = Some timer /\ (timer < next (timers p))%positive.

End LongPress.

(** ** Signing in

    The authentication context, the login form and the route guard. *)

Module Auth.
Import JS.

(** A regular expression of the shape the login form uses: a sequence of
    literal code units and one-or-more repetitions of a character class,
    anchored at both ends. *)
Inductive Atom :=
| Lit (c : N)
| ClassPlus (class : N -> bool).

(** One or more code units of [class], then [rest]. *)
Fixpoint plus_then (class : N -> bool) (rest : jsstring -> bool)
    (s : jsstring) : bool :=
  match s with
  | [] => false
  | c :: s' => class c && (plus_then class rest s' || rest s')
  end.

(** [re.test(s)] for an anchored expression. *)
Fixpoint test (re : list Atom) (s : jsstring) : bool :=
  match re with
  | [] => match s with [] => true | _ => false end
  | Lit c :: re' =>
    match s with
    | d :: s' => (c =? d)%N && test re' s'
    | [] => false
    end
  | ClassPlus class :: re' => plus_then class (test re') s
  end.

(** [[^\s@]] *)
Definition not_space_or_at (c : N) : bool :=
  negb (is_whitespace c) && negb (c =? 0x40)%N.

(** [/^[^\s@]+@[^\s@]+\.[^\s@]+$/] *)
Definition emailRegex : list Atom :=
  [ ClassPlus not_space_or_at; Lit 0x40; ClassPlus not_space_or_at;
    Lit 0x2E; ClassPlus not_space_or_at ].

Definition validateEmail (email : jsstring) : bool := test emailRegex email.

(** The words an expression matches. *)
Fixpoint matches (re : list Atom) (s : jsstring) : Prop :=
  match re with
  | [] => s = []
  | Lit c :: re' => exists s', s = c :: s' /\ matches re' s'
  | ClassPlus class :: re' =>
    exists run s',
      s = run ++ s' /\ run <> [] /\ forallb class run = true
      /\ matches re' s'
  end.

(** [AuthProvider]: the one flag, and the operations the context offers.
    A call either resolves or rejects with an [Error] whose message is
    given. *)
Inductive Settled :=
| Fulfilled
| Failed (message : jsstring).

(** A string as a condition: the empty string is falsy. *)
Definition nonempty (s : jsstring) : bool :=
  match s with
  | [] => false
  | _ :: _ => true
  end.

Definition login (email password : jsstring) (isAuthenticated : bool)
  : Settled * bool :=
  if nonempty email && nonempty password then (Fulfilled, true)
  else (Failed (js "Invalid credentials"), isAuthenticated).

Definition register (email password : jsstring) (isAuthenticated : bool)
  : Settled * bool :=
  if nonempty email && nonempty password then (Fulfilled, true)
  else (Failed (js "Invalid registration data"), isAuthenticated).

Definition logout (isAuthenticated : bool) : bool := false.

(** The hooks of [Login], with the authentication flag it reaches through
    the context and the navigations it asked for. *)
Record Form := {
  email : jsstring;
  password : jsstring;
  error : jsstring;
  isLoading : bool
}.

Record Page := {
  form : Form;
  isAuthenticated : bool;
  navigated : list jsstring
}.

Definition setError (v : jsstring) (p : Page) : Page :=
  {| form := {| email := email (form p); password := password (form p);
                error := v; isLoading := isLoading (form p) |};
     isAuthenticated := isAuthenticated p; navigated := navigated p |}.

Definition setIsLoading (v : bool) (p : Page) : Page :=
  {| form := {| email := email (form p); password := password (form p);
                error := error (form p); isLoading := v |};
     isAuthenticated := isAuthenticated p; navigated := navigated p |}.

Definition setIsAuthenticated (v : bool) (p : Page) : Page :=
  {| form := form p; isAuthenticated := v; navigated := navigated p |}.

Definition navigate (to : jsstring) (p : Page) : Page :=
  {| form := form p; isAuthenticated := isAuthenticated p;
     navigated := navigated p ++ [to] |}.

(** [handleSubmit] of the login form.  [login] has no [await] of its
    own, so the handler's continuation runs before any other event. *)
Definition handleSubmit (p : Page) : Page :=
  let email := email (form p) in
  let password := password (form p) in
  let p := setError [] p in
  if negb (validateEmail email) then
    setError (js "Please enter a valid email address") p
  else if (Z.of_nat (length password) <? 6)%Z then
    setError (js "Password must be at least 6 characters long") p
  else
    let p := setIsLoading true p in
    let '(settled, flag) := login email password (isAuthenticated p) in
    let p := setIsAuthenticated flag p in
    let p := match settled with
             | Fulfilled => navigate (js "/chat") p
             | Failed message => setError message p
             end in
    setIsLoading false p.

(** What a route renders. *)
Inductive View :=
| RegisterView
| LoginView
| ChatView
| Navigate (to : jsstring).

(** [ProtectedRoute] *)
Definition ProtectedRoute (isAuthenticated : bool) (children : View) : View :=
  if isAuthenticated then children else Navigate (js "/login").

(** The route table of [AppRoutes]: path pattern and element. *)
Definition AppRoutes (isAuthenticated : bool) : list (jsstring * View) :=
  [ (js "/register", RegisterView);
    (js "/login", LoginView);
    (js "/chat", ProtectedRoute isAuthenticated ChatView);
    (js "*", Navigate (js "/login")) ].

(** The element the table holds for a path pattern. *)
Definition route_element (isAuthenticated : bool) (pattern : jsstring)
  : option View :=
  snd <$> (snd <$> list_find (fun route => route.1 = pattern)
                     (AppRoutes isAuthenticated)).

End Auth.

(** ** Sample worlds to evaluate the handlers on *)

Module Samples.
Import JS Chat.

Definition env : Env :=
  {| now := 1700000000000%Z; freshId := js "lq1x2abc9f";
     apiKey := Some (js "secret"); recognition := false |}.

Definition env_without_key : Env :=
  {| now := 1700000000000%Z; freshId := js "lq1x2abc9f";
     apiKey := None; recognition := false |}.

(** The freshly mounted component, nothing stored. *)
Definition mounted : World :=
  {| store := initial (js "light") [] false; trace := [] |}.

(** The user typed [text] into the input field. *)
Definition typed (text : jsstring) (w : World) : World :=
  exec (setInput (Some text)) w.

Definition hello : Message :=
  {| role := user; content := JStr (js "hello"); timestamp := Some 1699999999000%Z;
     isCommand := None; id := Some (js "m1"); isPinned := None |}.

Definition anonymous : Message :=
  {| role := assistant; content := JStr (js "hi"); timestamp := None;
     isCommand := None; id := None; isPinned := None |}.

(** One message in the list, nothing pinned. *)
Definition chatting : World :=
  exec (setMessages (fun _ => [hello])) mounted.

(** Two earlier submissions, [a] first and [b] after it, and the cursor
    at rest. *)
Definition browsing : World :=
  exec (setInputHistory (fun _ => [js "b"; js "a"])) mounted.


Definition reply (status : Z) (body : option json) : FetchResult :=
  Resolved {| status := status; text := Some (js "body"); json_body := body |}.

End Samples.

(** ** More sample data *)

Module Cases.
Import JS Chat.

(** An environment whose browser has a speech recogniser. *)
Definition env_voice : Env :=
  {| now := 1700000005000%Z; freshId := js "lq1x2hk3p0";
     apiKey := Some (js "secret"); recognition := true |}.

(** The mounted component after speech support was detected. *)
Definition voice_ready : World :=
  {| store :=
       {| messages := []; input := Some (js "note: "); isLoading := false;
          inputHistory := []; historyIndex := -1; showTemplates := false;
          showExport := false; isListening := false;
          isVoiceSupported := true; showPinnedPanel := false;
          pinnedMessages := []; theme := js "dark" |};
     trace := [] |}.

Definition reply_text : Message :=
  {| role := assistant; content := JStr (js "hi"); timestamp := Some 1700000001000%Z;
     isCommand := None; id := Some (js "m2"); isPinned := None |}.

(** Two messages, nothing pinned. *)
Definition conversation : World :=
  exec (setMessages (fun _ => [Samples.hello; reply_text])) Samples.mounted.

(** Login forms as a visitor may have filled them in. *)
Definition visitor (address secret : JS.jsstring) : Auth.Page :=
  {| Auth.form := {| Auth.email := address; Auth.password := secret;
                     Auth.error := js "stale"; Auth.isLoading := false |};
     Auth.isAuthenticated := false; Auth.navigated := [] |}.

End Cases.

(** ** Properties *)

Import JS Chat.

#[local] Arguments js : simpl never.
#[local] Arguments decimal : simpl never.

(** Unfolding of the handler monad: binds are run as far as the outcome of
    their first part is known. *)
Ltac run_handler :=
  cbv [mbind M_bind mret M_ret throw try_catch_finally modify emit exec
       outcome setMessages setInput setIsLoading setInputHistory
       setHistoryIndex setShowTemplates setShowExport setIsListening
       setShowPinnedPanel setPinnedMessages setTheme];
  cbn [negb orb andb fst snd store trace messages input isLoading
       inputHistory historyIndex showTemplates showExport isListening
       isVoiceSupported showPinnedPanel pinnedMessages theme].

(** *** Strings *)

Lemma trimStart_all_whitespace (s : jsstring) :
  trimStart s = [] <-> forallb is_whitespace s = true.
Proof.
  induction s as [|c s IH]; simpl; [done|].
  destruct (is_whitespace c); simpl; [done|].
  split; intros; discriminate.
Qed.

Lemma forallb_reverse {A} (f : A -> bool) (l : list A) :
  forallb f (reverse l) = forallb f l.
Proof.
  induction l as [|x l IH]; [done|].
  rewrite reverse_cons, forallb_app, IH. simpl.
  rewrite andb_true_r. apply andb_comm.
Qed.

Lemma trimStart_keeps_non_whitespace (s : jsstring) :
  forallb is_whitespace (trimStart s) = true ->
  forallb is_whitespace s = true.
Proof.
  induction s as [|c s IH]; simpl; [done|].
  destruct (is_whitespace c) eqn:Hc; simpl; [done|].
  by rewrite Hc.
Qed.

(** The trimmed text is empty exactly for texts made of white space only,
    the empty text included. *)
Lemma trim_empty_iff (s : jsstring) :
  trim s = [] <-> forallb is_whitespace s = true.
Proof.
  unfold trim, trimEnd. split.
  - intros H. apply (f_equal reverse) in H.
    rewrite reverse_involutive in H. change (reverse []) with (@nil N) in H.
    apply trimStart_all_whitespace in H. rewrite forallb_reverse in H.
    by apply trimStart_keeps_non_whitespace.
  - intros H. apply trimStart_all_whitespace in H. by rewrite H.
Qed.

(** A text that starts with the command prefix is never blank. *)
Lemma startsWith_slash_not_blank (s : jsstring) :
  startsWith_slash s = true -> trim s <> [].
Proof.
  intros Hs Ht. apply trim_empty_iff in Ht.
  destruct s as [|c s]; simpl in *; [done|].
  apply N.eqb_eq in Hs. subst c. discriminate.
Qed.

(** *** Pinning *)

Section Pinning.
Implicit Types (w : World) (m message : Message).

Lemma togglePin_without_id message w :
  has_id message = false -> exec (togglePinMessage message) w = w.
Proof.
  intros H. unfold togglePinMessage. rewrite H. by destruct w.
Qed.

Lemma pinned_flag_with_isPinned b m : pinned_flag (with_isPinned b m) = b.
Proof. done. Qed.

Lemma id_with_isPinned b m : id (with_isPinned b m) = id m.
Proof. done. Qed.

(** Unpinning drops every pinned copy with the id and clears the flag of
    every listed message with the id. *)
Lemma unpin_consistent message (s : State) :
  pin_consistent s ->
  Forall (fun m =>
    pinned_flag m = true <->
    Exists (fun p => id p = id m)
      (filter (fun p => id p <> id message) (pinnedMessages s)))
    ((fun m => if decide (id m = id message)
               then with_isPinned false m else m) <$> messages s).
Proof.
  unfold pin_consistent. intros H. rewrite Forall_fmap.
  eapply Forall_impl; [exact H|]. intros m [Hpin Hin]. simpl.
  destruct (decide (id m = id message)) as [Heq|Hne].
  - rewrite pinned_flag_with_isPinned, id_with_isPinned. split; [done|].
    rewrite Exists_exists. intros (p & Hp & Hid).
    apply list_elem_of_filter in Hp as [Hp _]. congruence.
  - rewrite !Exists_exists in *. split.
    + intros Hm. destruct (Hpin Hm) as (p & Hp & Hid).
      exists p. split; [|done]. apply list_elem_of_filter. split; [congruence|done].
    + intros (p & Hp & Hid). apply Hin. exists p.
      apply list_elem_of_filter in Hp as [_ Hp]. done.
Qed.

(** Pinning appends a flagged copy and sets the flag of every listed
    message with the id. *)
Lemma pin_consistent_after_pin message (s : State) :
  pin_consistent s ->
  Forall (fun m =>
    pinned_flag m = true <->
    Exists (fun p => id p = id m)
      (pinnedMessages s ++ [with_isPinned true message]))
    ((fun m => if decide (id m = id message)
               then with_isPinned true m else m) <$> messages s).
Proof.
  unfold pin_consistent. intros H. rewrite Forall_fmap.
  eapply Forall_impl; [exact H|]. intros m [Hpin Hin]. simpl.
  rewrite Exists_app, Exists_cons, Exists_nil.
  destruct (decide (id m = id message)) as [Heq|Hne].
  - rewrite pinned_flag_with_isPinned, !id_with_isPinned. split; [|done].
    intros _. right. left. done.
  - rewrite id_with_isPinned. split.
    + intros Hm. left. by apply Hpin.
    + intros [Hex|[Heq|[]]]; [by apply Hin | congruence].
Qed.

Lemma togglePin_preserves message w :
  pin_consistent (store w) ->
  pin_consistent (store (exec (togglePinMessage message) w)).
Proof.
  intros H. unfold togglePinMessage.
  destruct (has_id message); simpl; [|done].
  destruct (pinned_flag message); simpl.
  - by apply unpin_consistent.
  - by apply pin_consistent_after_pin.
Qed.

Lemma togglePins_preserve (calls : list Message) w :
  pin_consistent (store w) -> pin_consistent (store (togglePins calls w)).
Proof.
  revert w. induction calls as [|message calls IH]; intros w H; [done|].
  simpl. apply IH. by apply togglePin_preserves.
Qed.

(** The component mounts with an empty main list, so whatever pinned list
    local storage returns, every run of Toggle Pin calls from the mounted
    state keeps the two in step. *)
Corollary togglePin_consistent_from_mount
    (storedTheme : jsstring) (savedPinned calls : list Message)
    (speechRecognition : bool) :
  pin_consistent
    (store (togglePins calls
              {| store := initial storedTheme savedPinned speechRecognition;
                 trace := [] |})).
Proof.
  apply togglePins_preserve. unfold pin_consistent. simpl. constructor.
Qed.

(** C1. After every sequence of Toggle Pin calls, started in a state
    where the flags and the pinned list agree, a message of the main list
    has [isPinned] set if and only if the pinned list holds a message with
    the same id; and a call on a message without an id changes nothing,
    neither collection included. *)
Theorem togglePin_keeps_flags_and_pinned_list_in_step
    (calls : list Message) w :
  pin_consistent (store w) ->
  pin_consistent (store (togglePins calls w))
  /\ (forall message w', has_id message = false ->
        exec (togglePinMessage message) w' = w').
Proof.
  intros H. split; [by apply togglePins_preserve|].
  intros; by apply togglePin_without_id.
Qed.

Lemma togglePin_keeps_flags_and_pinned_list_in_step_witness :
  let calls := [Samples.hello; with_isPinned true Samples.hello;
                Samples.anonymous; Samples.hello] in
  (pin_consistent (store Samples.chatting)
   /\ has_id Samples.anonymous = false)
  /\ pin_consistent (store (togglePins calls Samples.chatting))
  /\ exec (togglePinMessage Samples.anonymous) Samples.chatting
     = Samples.chatting.
Proof.
  intros calls.
  assert (pin_consistent (store Samples.chatting)) as H.
  { unfold pin_consistent. simpl. constructor; [|constructor].
    split; [discriminate | intros E; inversion E]. }
  assert (has_id Samples.anonymous = false) as Hid by reflexivity.
  destruct (togglePin_keeps_flags_and_pinned_list_in_step
              calls Samples.chatting H) as [Hinv Hnoop].
  split; [split; [exact H | exact Hid]|].
  split; [exact Hinv | exact (Hnoop _ _ Hid)].
Defined.

End Pinning.

(** *** History navigation *)

Section Navigation.
Context {rt : Runtime} (env : Env).
Implicit Types (w : World).

Lemma previous_advances w :
  let s := store w in
  let len := Z.of_nat (length (inputHistory s)) in
  (historyIndex s < len - 1)%Z ->
  historyIndex (store (arrowUp env w)) = (historyIndex s + 1)%Z
  /\ input (store (arrowUp env w))
     = index (inputHistory s) (len - 1 - (historyIndex s + 1)).
Proof.
  intros s len H. unfold arrowUp, step, handler, handleKeyDown.
  fold s. fold len. destruct (Z.ltb_spec (historyIndex s) (len - 1)); [|lia].
  done.
Qed.

(** At the last entry ArrowUp changes no state. *)
Lemma previous_at_end w :
  let s := store w in
  (0 <= historyIndex s)%Z ->
  (Z.of_nat (length (inputHistory s)) - 1 <= historyIndex s)%Z ->
  store (arrowUp env w) = store w.
Proof.
  intros s H0 H. unfold arrowUp, step, handler, handleKeyDown. fold s.
  destruct (Z.ltb_spec (historyIndex s)
              (Z.of_nat (length (inputHistory s)) - 1)); [lia|].
  destruct (Z.eqb_spec (historyIndex s) (-1)); [lia|]. done.
Qed.

(** C2, as the code has it.  ArrowUp, when the cursor is below the last
    index, advances it and sets the buffer to the entry at position
    [length - 1 - newIndex]; so with [inputHistory = ["b", "a"]] and the
    cursor at -1 the first press recalls ["a"], the second ["b"], and a
    third leaves the buffer at ["b"]. *)
Theorem previous_reads_mirrored_position w :
  let s := store w in
  let len := Z.of_nat (length (inputHistory s)) in
  ((historyIndex s < len - 1)%Z ->
     historyIndex (store (arrowUp env w)) = (historyIndex s + 1)%Z
     /\ input (store (arrowUp env w))
        = index (inputHistory s) (len - 1 - (historyIndex s + 1)))
  /\ (inputHistory s = [js "b"; js "a"] -> historyIndex s = (-1)%Z ->
        input (store (arrowUp env w)) = Some (js "a")
        /\ input (store (arrowUp env (arrowUp env w))) = Some (js "b")
        /\ input (store (arrowUp env (arrowUp env (arrowUp env w))))
           = Some (js "b")
        /\ store (arrowUp env (arrowUp env (arrowUp env w)))
           = store (arrowUp env (arrowUp env w))).
Proof.
  intros s len. split; [apply previous_advances|].
  intros Hh Hi. subst s len. destruct w as [s t]. destruct s.
  simpl in Hh, Hi. subst. repeat split; reflexivity.
Qed.

End Navigation.

Lemma previous_reads_mirrored_position_witness :
  let up := arrowUp (H := plain_runtime) Samples.env in
  (historyIndex (store Samples.browsing)
     < Z.of_nat (length (inputHistory (store Samples.browsing))) - 1)%Z
  /\ inputHistory (store Samples.browsing) = [js "b"; js "a"]
  /\ historyIndex (store Samples.browsing) = (-1)%Z
  /\ historyIndex (store (up Samples.browsing)) = 0%Z
  /\ input (store (up Samples.browsing)) = Some (js "a")
  /\ input (store (up (up Samples.browsing))) = Some (js "b")
  /\ input (store (up (up (up Samples.browsing)))) = Some (js "b").
Proof.
  intros up.
  assert (historyIndex (store Samples.browsing)
     < Z.of_nat (length (inputHistory (store Samples.browsing))) - 1)%Z as H1
    by (simpl; lia).
  assert (inputHistory (store Samples.browsing) = [js "b"; js "a"]) as H2
    by reflexivity.
  assert (historyIndex (store Samples.browsing) = (-1)%Z) as H3
    by reflexivity.
  destruct (previous_reads_mirrored_position (rt := plain_runtime)
              Samples.env Samples.browsing) as [Hstep Hrun].
  destruct (Hstep H1) as [Hi _].
  destruct (Hrun H2 H3) as (Ha & Hb & Hc & _).
  repeat split; assumption.
Defined.

(** C2 as worded fails: the first press does not recall ["b"]. *)
Lemma previous_does_not_start_at_most_recent :
  let up := arrowUp (H := plain_runtime) Samples.env in
  ~ (input (store (up Samples.browsing)) = Some (js "b")
     /\ input (store (up (up Samples.browsing))) = Some (js "a")
     /\ input (store (up (up (up Samples.browsing)))) = Some (js "a")).
Proof. intros up [H _]. vm_compute in H. discriminate. Qed.

(** *** Submission of blank text *)

Section Submit.
Context {rt : Runtime} (env : Env).
Implicit Types (w : World) (text : jsstring).

(** C3. When the trimmed input is empty, Submit changes no state: no
    message is appended, [inputHistory] and [historyIndex] stay as they
    are, [isLoading] keeps its value (so stays false), and the handler
    returns without a timer or a request; its only effect is
    [preventDefault]. *)
Theorem blank_submit_is_noop w text :
  input (store w) = Some text ->
  trim text = [] ->
  let w' := exec (handleSubmit env (store w)) w in
  outcome (handleSubmit env (store w)) w = Normal Returned
  /\ store w' = store w
  /\ messages (store w') = messages (store w)
  /\ inputHistory (store w') = inputHistory (store w)
  /\ historyIndex (store w') = historyIndex (store w)
  /\ isLoading (store w') = isLoading (store w)
  /\ trace w' = trace w ++ [PreventDefault].
Proof.
  intros Hin Hblank. unfold handleSubmit, exec, outcome. rewrite Hin.
  simpl. rewrite decide_True by done. done.
Qed.

End Submit.

Lemma blank_submit_is_noop_witness :
  let w := Samples.typed (js "   ") Samples.chatting in
  let w' := exec (handleSubmit (rt := plain_runtime) Samples.env (store w)) w in
  input (store w) = Some (js "   ")
  /\ trim (js "   ") = []
  /\ store w' = store w
  /\ isLoading (store w') = false.
Proof.
  intros w w'.
  assert (input (store w) = Some (js "   ")) as H1 by reflexivity.
  assert (trim (js "   ") = []) as H2 by reflexivity.
  destruct (blank_submit_is_noop (rt := plain_runtime)
              Samples.env w (js "   ") H1 H2) as (_ & Hs & _ & _ & _ & Hl & _).
  split; [exact H1|]. split; [exact H2|]. split; [exact Hs|].
  exact (eq_trans Hl eq_refl).
Defined.

(** *** Clear, reset and save *)

Section Commands.
Context {rt : Runtime} (env : Env) (cl : State).
Implicit Types (w : World).



End Commands.



(** *** The remote call *)

Section Completion.
Context {rt : Runtime} (env : Env).
Implicit Types (w : World) (text : jsstring) (result : FetchResult).

(** Whatever the call settles to, the continuation ends normally, appends
    exactly one assistant message and clears the loading flag. *)
Lemma settled_appends_one_assistant_message result w :
  let w' := exec (handleSubmit_settled env result) w in
  outcome (handleSubmit_settled env result) w = Normal ()
  /\ isLoading (store w') = false
  /\ exists generatedText,
       messages (store w')
       = messages (store w) ++ [assistantMessage env generatedText].
Proof.
  unfold handleSubmit_settled.
  destruct result as [|response]; [run_handler; by eauto|].
  destruct (ok response) eqn:Hok; run_handler; rewrite Hok; simpl.
  - destruct (json_body response) as [data|]; [|run_handler; by eauto].
    destruct data; run_handler; by eauto.
  - destruct (text response); run_handler; by eauto.
Qed.


(** A 2xx reply whose body is not JSON, or is the JSON value [null], ends
    in the apology as well: reading the body rejects, and reading
    [candidates] from [null] throws. *)
Lemma unreadable_payload_appends_the_apology response w :
  ok response = true ->
  json_body response = None \/ json_body response = Some JNull ->
  messages (store (exec (handleSubmit_settled env (Resolved response)) w))
  = messages (store w) ++ [apology env].
Proof.
  intros Hok Hbody.
  unfold handleSubmit_settled. run_handler.
  rewrite Hok. simpl. by destruct Hbody as [-> | ->].
Qed.



End Completion.




(** *** Submission without an API key *)

Section MissingKey.
Context {rt : Runtime} (env : Env).
Implicit Types (w : World) (text : jsstring).

(** The first pass of Submit on a text that is neither blank nor a
    command: the user message is appended, the history and the cursor are
    updated, the buffer is cleared and the loading flag is raised. *)
Lemma message_submit_first_pass w text :
  input (store w) = Some text ->
  trim text <> [] ->
  startsWith_slash text = false ->
  let w' := exec (handleSubmit env (store w)) w in
  messages (store w')
  = messages (store w)
    ++ [{| role := user; content := JStr text; timestamp := Some (now env);
           isCommand := None; id := Some (freshId env); isPinned := None |}]
  /\ inputHistory (store w')
     = (if decide (head (inputHistory (store w)) = Some (trim text))
        then inputHistory (store w) else trim text :: inputHistory (store w))
  /\ historyIndex (store w') = (-1)%Z
  /\ input (store w') = Some []
  /\ isLoading (store w') = true
  /\ pinnedMessages (store w') = pinnedMessages (store w)
  /\ trace w'
     = trace w ++ [PreventDefault;
                   match key_present env with
                   | Some key => Fetch key text
                   | None => SetTimeout ApiKeyMissing 1000
                   end]
  /\ outcome (handleSubmit env (store w)) w
     = Normal match key_present env with
              | Some _ => FetchPending
              | None => TimerPending
              end.
Proof.
  intros Hin Hblank Hcmd. unfold handleSubmit. rewrite Hin.
  run_handler. rewrite decide_False by done. rewrite Hcmd. simpl.
  destruct (decide (head (inputHistory (store w)) = Some (trim text)));
    [rewrite decide_False by tauto | rewrite decide_True by done];
    destruct (key_present env); simpl; rewrite <- app_assoc; done.
Qed.


End MissingKey.


(** *** Command dispatch *)

Section Dispatch.
Context {rt : Runtime} (env : Env) (cl : State).
Implicit Types (w : World) (text command key : jsstring) (c : Command).

Lemma filter_request_snoc (t : list Effect) (e : Effect) :
  is_request e = false ->
  filter is_request (t ++ [e]) = filter is_request t.
Proof.
  intros H. rewrite filter_app, filter_cons_False, filter_nil, app_nil_r;
    [done|]. rewrite H. simpl. tauto.
Qed.

(** The registry holds the ten commands of the source and nothing else. *)
Lemma registry_entries key c :
  slashCommands env cl !! key = Some c ->
  (key, c) ∈ [ (js "help", help env); (js "clear", clear env);
               (js "about", about env); (js "theme", theme_command env cl);
               (js "save", save env cl); (js "stats", stats env cl);
               (js "reset", reset env); (js "templates", templates env);
               (js "voice", voice env cl); (js "pinned", pinned env cl) ].
Proof. unfold slashCommands. apply elem_of_list_to_map_2. Qed.

(** No command name is a property name of [Object.prototype]. *)
Lemma registry_not_inherited key c :
  slashCommands env cl !! key = Some c -> key ∉ Object_prototype.
Proof.
  intros H%registry_entries.
  repeat (apply elem_of_cons in H as [H|H];
          [injection H as -> _; compute_done|]).
  by apply elem_of_nil in H.
Qed.

(** What every command of the registry does: it ends normally, appends its
    one feedback message (after emptying the list, for [clear] and
    [reset]), issues no request, and leaves the input buffer, the loading
    flag and the pinned list alone; only [reset] touches the history. *)
Lemma action_feedback key c w :
  slashCommands env cl !! key = Some c ->
  let w' := exec (action c) w in
  outcome (action c) w = Normal ()
  /\ (exists text,
        messages (store w') = messages (store w) ++ [commandMessage env text]
        \/ messages (store w') = [commandMessage env text])
  /\ inputHistory (store w')
     = (if decide (key = js "reset") then [] else inputHistory (store w))
  /\ historyIndex (store w')
     = (if decide (key = js "reset") then -1 else historyIndex (store w))%Z
  /\ input (store w') = input (store w)
  /\ isLoading (store w') = isLoading (store w)
  /\ pinnedMessages (store w') = pinnedMessages (store w)
  /\ filter is_request (trace w') = filter is_request (trace w).
Proof.
  intros H%registry_entries.
  repeat (apply elem_of_cons in H as [H|H]; [injection H as -> ->|]);
    [ .. | by apply elem_of_nil in H ].
  all: try rewrite !(decide_False (P := _ = js "reset"))
         by (intros E; vm_compute in E; discriminate).
  all: try rewrite !(decide_True (P := js "reset" = js "reset")) by done.
  all: unfold help, clear, about, theme_command, save, stats, reset,
         templates, voice, pinned, action, toggleTheme, exportChat,
         startListening, stopListening.
  - (* help *) run_handler. repeat split; eauto.
  - (* clear *) run_handler. repeat split; eauto.
  - (* about *) run_handler. repeat split; eauto.
  - (* theme *) run_handler. repeat split; eauto.
  - (* save *)
    destruct (decide (length (messages cl) = 0)); run_handler;
      rewrite ?filter_request_snoc by done; repeat split; eauto.
  - (* stats *) run_handler. repeat split; eauto.
  - (* reset *) run_handler. repeat split; eauto.
  - (* templates *) run_handler. repeat split; eauto.
  - (* voice *)
    destruct (isVoiceSupported cl), (isListening cl), (recognition env);
      run_handler; rewrite ?filter_request_snoc by done;
      repeat split; eauto.
  - (* pinned *) run_handler. repeat split; eauto.
Qed.

(** Where the feedback message lands: behind the messages shown before,
    except for [clear] and [reset], which empty the list first. *)
Lemma action_feedback_list key c w :
  slashCommands env cl !! key = Some c ->
  exists text,
    messages (store (exec (action c) w))
    = (if decide (key = js "clear" \/ key = js "reset")
       then [] else messages (store w))
      ++ [commandMessage env text].
Proof.
  intros H%registry_entries.
  repeat (apply elem_of_cons in H as [H|H]; [injection H as -> ->|]);
    [ .. | by apply elem_of_nil in H ].
  all: match goal with
       | |- context [decide (?k = ?a \/ ?k = ?b)] =>
         destruct (decide (k = a \/ k = b)) as [E|E]
       end.
  all: try (destruct E as [E|E]; vm_compute in E; discriminate).
  all: try (exfalso; apply E; (by left) || (by right)).
  all: unfold help, clear, about, theme_command, save, stats, reset,
         templates, voice, pinned, action, toggleTheme, exportChat,
         startListening, stopListening.
  - (* help *) run_handler. eauto.
  - (* clear *) run_handler. eauto.
  - (* about *) run_handler. eauto.
  - (* theme *) run_handler. eauto.
  - (* save *)
    destruct (decide (length (messages cl) = 0)); run_handler; eauto.
  - (* stats *) run_handler. eauto.
  - (* reset *) run_handler. eauto.
  - (* templates *) run_handler. eauto.
  - (* voice *)
    destruct (isVoiceSupported cl), (isListening cl), (recognition env);
      run_handler; eauto.
  - (* pinned *) run_handler. eauto.
Qed.

(** A name that is neither a command nor inherited is reported as
    unknown: one system message that quotes the text as submitted and
    points to [/help]. *)
Lemma unknown_command_reported command w :
  let key := replace_slash (trim (toLowerCase command)) in
  slashCommands env cl !! key = None ->
  key ∉ Object_prototype ->
  exists report,
    handleSlashCommand env cl command w
    = (Normal true, exec (setMessages (fun prev => prev ++ [report])) w)
    /\ role report = system
    /\ (exists said, content report = JStr said
          /\ contains command said /\ contains (js "/help") said).
Proof.
  intros key Hnone Hproto.
  exists (commandMessage env
            (js "❌ Unknown command: " ++ command ++ LF
             ++ js "Type /help to see available commands.")).
  split; [|split; [done|]].
  - unfold handleSlashCommand, slashCommands_get. fold key.
    rewrite Hnone, decide_False by done. done.
  - eexists. split; [done|]. split.
    + exists (js "❌ Unknown command: "),
             (LF ++ js "Type /help to see available commands."). done.
    + exists (js "❌ Unknown command: " ++ command ++ LF ++ js "Type "),
             (js " to see available commands.").
      assert (js "Type /help to see available commands."
              = js "Type " ++ js "/help" ++ js " to see available commands.")
        as -> by (vm_compute; reflexivity).
      by rewrite <- !app_assoc.
Qed.

End Dispatch.

(** *** Submission of a command *)

Section CommandSubmit.
Context {rt : Runtime} (env : Env).
Implicit Types (w : World) (text key : jsstring).

Lemma reset_is_registered (cl : State) :
  slashCommands env cl !! js "reset" = Some (reset env).
Proof. reflexivity. Qed.

Lemma inherited_is_not_reset key :
  key ∈ Object_prototype -> key <> js "reset".
Proof.
  intros Hin ->. revert Hin. change (js "reset" ∉ Object_prototype).
  compute_done.
Qed.

(** What Submit does with a text that begins with [/]: the state after it,
    field by field. *)
Lemma command_submit_effect w text :
  input (store w) = Some text ->
  startsWith_slash text = true ->
  let key := replace_slash (trim (toLowerCase text)) in
  let w' := exec (handleSubmit env (store w)) w in
  (messages (store w') = messages (store w)
   \/ exists said,
        messages (store w') = messages (store w) ++ [commandMessage env said]
        \/ messages (store w') = [commandMessage env said])
  /\ inputHistory (store w')
     = (if decide (key = js "reset") then [] else inputHistory (store w))
  /\ historyIndex (store w')
     = (if decide (key = js "reset") then -1 else historyIndex (store w))%Z
  /\ (input (store w') = Some text \/ input (store w') = Some [])
  /\ filter is_request (trace w') = filter is_request (trace w)
  /\ isLoading (store w') = isLoading (store w)
  /\ pinnedMessages (store w') = pinnedMessages (store w)
  /\ (key ∉ Object_prototype ->
      outcome (handleSubmit env (store w)) w = Normal Returned
      /\ input (store w') = Some []
      /\ exists said,
           messages (store w')
           = messages (store w) ++ [commandMessage env said]
           \/ messages (store w') = [commandMessage env said]).
Proof.
  intros Hin Hcmd key w'. subst w'.
  pose proof (startsWith_slash_not_blank _ Hcmd) as Hblank.
  unfold handleSubmit. rewrite Hin. run_handler.
  rewrite decide_False by done. rewrite Hcmd.
  set (w1 := {| store := store w; trace := trace w ++ [PreventDefault] |}).
  assert (filter is_request (trace w1) = filter is_request (trace w)) as Ht
    by (by apply filter_request_snoc).
  unfold handleSlashCommand, slashCommands_get. fold key.
  destruct (slashCommands env (store w) !! key) as [c|] eqn:Hlook.
  - destruct (action_feedback env (store w) key c w1 Hlook)
      as (Ho & Hm & Hh & Hx & Hi & Hl & Hp & Hr).
    unfold outcome, exec in *. run_handler.
    destruct (action c w1) as [r w2]. simpl in *. subst r. simpl.
    split; [by right|]. split; [done|]. split; [done|].
    split; [by right|]. split; [congruence|]. done.
  - destruct (decide (key ∈ Object_prototype)) as [Hp|Hp]; run_handler.
    + rewrite !decide_False by (by apply inherited_is_not_reset).
      split; [by left|]. split; [done|]. split; [done|].
      split; [by left|]. done.
    + rewrite !decide_False
        by (intros ->; by rewrite reset_is_registered in Hlook).
      split; [right; eexists; by left|]. split; [done|]. split; [done|].
      split; [by right|]. repeat (split; [done|]).
      eexists. by left.
Qed.

(** C4, as the code has it.  Submitting a text that begins with [/] adds
    no user message (whatever is in the list afterwards was there before or
    is a system message), issues no request and leaves the loading flag
    alone; [inputHistory] is unchanged unless the command is [reset], which
    empties it; and unless the normalized name is a property name of
    [Object.prototype], the text is dispatched as a command, which appends
    exactly one system message (to the list, or to the emptied list), and
    the input buffer is cleared. *)
Theorem command_submit_adds_no_user_message w text :
  input (store w) = Some text ->
  startsWith_slash text = true ->
  let key := replace_slash (trim (toLowerCase text)) in
  let w' := exec (handleSubmit env (store w)) w in
  (forall m, m ∈ messages (store w') ->
             m ∈ messages (store w) \/ role m = system)
  /\ inputHistory (store w')
     = (if decide (key = js "reset") then [] else inputHistory (store w))
  /\ filter is_request (trace w') = filter is_request (trace w)
  /\ isLoading (store w') = isLoading (store w)
  /\ (key ∉ Object_prototype ->
      outcome (handleSubmit env (store w)) w = Normal Returned
      /\ input (store w') = Some []
      /\ exists feedback,
           role feedback = system
           /\ (messages (store w') = messages (store w) ++ [feedback]
               \/ messages (store w') = [feedback])).
Proof.
  intros Hin Hcmd key w'.
  destruct (command_submit_effect w text Hin Hcmd)
    as (Hm & Hh & _ & _ & Hr & Hl & _ & Hd).
  fold key w' in Hm, Hh, Hr, Hl, Hd.
  split; [|split; [done|split; [done|split; [done|]]]].
  - intros m Hin'. destruct Hm as [Hm|[said [Hm|Hm]]]; rewrite Hm in Hin'.
    + by left.
    + apply elem_of_app in Hin' as [?|Hin']; [by left|].
      apply list_elem_of_singleton in Hin' as ->. by right.
    + apply list_elem_of_singleton in Hin' as ->. by right.
  - intros Hk. destruct (Hd Hk) as (Ho & Hi & said & Hs).
    split; [done|]. split; [done|]. by exists (commandMessage env said).
Qed.

End CommandSubmit.

Lemma command_submit_adds_no_user_message_witness :
  let w := Samples.typed (js "/Clear ") Samples.chatting in
  let w' := exec (handleSubmit (rt := plain_runtime) Samples.env (store w)) w in
  (input (store w) = Some (js "/Clear ")
   /\ startsWith_slash (js "/Clear ") = true
   /\ replace_slash (trim (toLowerCase (Runtime := plain_runtime)
                             (js "/Clear "))) ∉ Object_prototype)
  /\ inputHistory (store w') = inputHistory (store w)
  /\ filter is_request (trace w') = filter is_request (trace w)
  /\ input (store w') = Some []
  /\ exists feedback,
       role feedback = system
       /\ (messages (store w') = messages (store w) ++ [feedback]
           \/ messages (store w') = [feedback]).
Proof.
  intros w w'.
  assert (input (store w) = Some (js "/Clear ")) as H1 by reflexivity.
  assert (startsWith_slash (js "/Clear ") = true) as H2
    by (vm_compute; reflexivity).
  assert (replace_slash (trim (toLowerCase (Runtime := plain_runtime)
                                 (js "/Clear "))) ∉ Object_prototype) as H3
    by compute_done.
  destruct (command_submit_adds_no_user_message (rt := plain_runtime)
              Samples.env w (js "/Clear ") H1 H2) as (_ & Hh & Hr & _ & Hd).
  destruct (Hd H3) as (_ & Hi & Hf).
  split; [repeat split; assumption|].
  split; [exact (eq_trans Hh ltac:(vm_compute; reflexivity))|].
  split; [exact Hr|]. split; [exact Hi | exact Hf].
Defined.

(** C4 as worded fails: [/reset] is a command-prefixed input, and
    submitting it empties [inputHistory]. *)
Lemma reset_submit_mutates_history :
  let w := Samples.typed (js "/reset") Samples.browsing in
  let w' := exec (handleSubmit (rt := plain_runtime) Samples.env (store w)) w in
  startsWith_slash (js "/reset") = true
  /\ inputHistory (store w) = [js "b"; js "a"]
  /\ inputHistory (store w') = []
  /\ inputHistory (store w') <> inputHistory (store w).
Proof.
  intros w w'. repeat split; try (vm_compute; reflexivity).
  vm_compute. discriminate.
Qed.

(** C5 fails on the code at [/constructor]: the name is not in the
    registry, yet the lookup finds the inherited [constructor] property,
    the call of its missing [action] throws, and Submit ends with a
    [TypeError]: no system message, and the text stays in the buffer. *)
Theorem constructor_command_throws (env : Env) (w : World) :
  let w0 := Samples.typed (js "/constructor") w in
  slashCommands (rt := plain_runtime) env (store w0) !! js "constructor" = None
  /\ handleSlashCommand (rt := plain_runtime) env (store w0)
       (js "/constructor") w0 = (Throw TypeError, w0)
  /\ handleSubmit (rt := plain_runtime) env (store w0) w0
     = (Throw TypeError,
        {| store := store w0; trace := trace w0 ++ [PreventDefault] |}).
Proof.
  destruct w as [s t]. destruct s. repeat split; vm_compute; reflexivity.
Qed.

(** *** The cursor stays in range

    Every history read of [handleKeyDown] is in range in every state the
    component can reach, so the input buffer never holds [undefined]. *)

Section Reachable.
Context {rt : Runtime}.
Implicit Types (w : World) (s : State) (env : Env).

Lemma index_in_range {A} (arr : list A) (i : Z) :
  (0 <= i < Z.of_nat (length arr))%Z -> is_Some (index arr i).
Proof.
  intros [H0 Hlen]. unfold index.
  destruct (Z.ltb_spec i 0); [lia|].
  apply lookup_lt_is_Some. lia.
Qed.

Lemma keyDown_keeps_cursor_in_range (key : Key) w :
  cursor_in_range (store w) ->
  cursor_in_range (store (exec (handleKeyDown (store w) key) w)).
Proof.
  intros [[Hlo Hhi] Hin]. unfold handleKeyDown, cursor_in_range.
  set (len := Z.of_nat (length (inputHistory (store w)))) in *.
  destruct key; run_handler; [| |done].
  - destruct (Z.ltb_spec (historyIndex (store w)) (len - 1)); run_handler.
    + split; [fold len; lia|]. apply index_in_range. fold len. lia.
    + destruct (Z.eqb_spec (historyIndex (store w)) (-1));
        destruct (Z.ltb_spec 0 len); run_handler; try done.
      lia.
  - destruct (Z.ltb_spec 0 (historyIndex (store w))); run_handler.
    + split; [fold len; lia|]. apply index_in_range. fold len. lia.
    + destruct (Z.eqb_spec (historyIndex (store w)) 0); run_handler;
        [|done]. split; [fold len; lia | done].
Qed.

Lemma submit_keeps_cursor_in_range env w :
  cursor_in_range (store w) ->
  cursor_in_range (store (exec (handleSubmit env (store w)) w)).
Proof.
  intros [[Hlo Hhi] [text Hin]]. unfold cursor_in_range.
  destruct (decide (trim text = [])) as [Hblank|Hblank].
  { unfold handleSubmit. rewrite Hin. run_handler.
    rewrite decide_True by done. run_handler. by rewrite Hin. }
  destruct (startsWith_slash text) eqn:Hcmd.
  - destruct (command_submit_effect env w text Hin Hcmd)
      as (_ & Hh & Hx & Hi & _).
    rewrite Hh, Hx. split; [|by destruct Hi as [-> | ->]].
    destruct (decide (_ = js "reset")); simpl; lia.
  - destruct (message_submit_first_pass env w text Hin Hblank Hcmd)
      as (_ & Hh & Hx & Hi & _).
    rewrite Hx, Hi. split; [|done].
    split; [lia|]. rewrite Hh. destruct (decide _); simpl; lia.
Qed.

Lemma step_keeps_cursor_in_range env (ev : Event) w :
  cursor_in_range (store w) -> cursor_in_range (store (step env ev w)).
Proof.
  intros H. unfold step, handler. destruct ev.
  - pose proof (submit_keeps_cursor_in_range env w H) as H'.
    unfold exec in *. run_handler.
    by destruct (handleSubmit env (store w) w) as [[?|?] ?].
  - by apply keyDown_keeps_cursor_in_range.
  - destruct H as [? _]. by run_handler.
  - destruct H as [? _]. unfold handleTemplateSelect. by run_handler.
  - unfold togglePinMessage.
    destruct (has_id message), (pinned_flag message); by run_handler.
  - destruct callback. unfold run_timer. by run_handler.
  - unfold handleSubmit_settled. destruct H as [Hc Hi].
    destruct result as [|response]; [by run_handler|].
    run_handler. destruct (ok response); run_handler.
    + destruct (json_body response) as [data|]; run_handler; [|done].
      destruct data; by run_handler.
    + by destruct (text response); run_handler.
Qed.

Lemma mounted_cursor_in_range
    (storedTheme : jsstring) (savedPinned : list Message)
    (speechRecognition : bool) :
  cursor_in_range (initial storedTheme savedPinned speechRecognition).
Proof. split; [simpl; lia | by eexists]. Qed.

Lemma run_keeps_cursor_in_range (events : list (Env * Event)) w :
  cursor_in_range (store w) -> cursor_in_range (store (run events w)).
Proof.
  revert w. induction events as [|[env ev] events IH]; intros w H; [done|].
  simpl. by apply IH, step_keeps_cursor_in_range.
Qed.

(** Whatever events arrive, the cursor stays in range and the buffer keeps
    holding a string, from any state where that is so; and it is so once
    the component has mounted, whatever local storage returned and whether
    or not the browser offers speech recognition. *)
Theorem cursor_in_range_always (events : list (Env * Event)) w :
  (cursor_in_range (store w) -> cursor_in_range (store (run events w)))
  /\ forall storedTheme savedPinned speechRecognition,
       cursor_in_range
         (store (run events
                   {| store := initial storedTheme savedPinned
                                 speechRecognition;
                      trace := [] |})).
Proof.
  split; [apply run_keeps_cursor_in_range|].
  intros. apply run_keeps_cursor_in_range, mounted_cursor_in_range.
Qed.

End Reachable.

(** *** The pin invariant in every reachable state

    Besides Toggle Pin, the other handlers only append messages that carry
    a newly generated id and no flag, or empty the list; so the invariant
    of the data model holds throughout a session as long as generated ids
    are new with respect to the pinned list. *)

Section PinInvariant.
Context {rt : Runtime}.
Implicit Types (w : World) (s : State) (env : Env) (m : Message).

Lemma pin_consistent_frame s s' :
  messages s' = messages s ->
  pinnedMessages s' = pinnedMessages s ->
  pin_consistent s -> pin_consistent s'.
Proof. unfold pin_consistent. by intros -> ->. Qed.

Lemma pin_consistent_emptied s s' m :
  messages s' = [m] ->
  pinnedMessages s' = pinnedMessages s ->
  pinned_flag m = false ->
  Forall (fun p => id p <> id m) (pinnedMessages s) ->
  pin_consistent s'.
Proof.
  unfold pin_consistent. intros -> -> Hflag Hfresh.
  constructor; [|constructor]. rewrite Hflag. split; [done|].
  rewrite Exists_exists. intros (p & Hp & Hid).
  rewrite Forall_forall in Hfresh. exfalso. by apply (Hfresh p).
Qed.

Lemma pin_consistent_appended s s' m :
  messages s' = messages s ++ [m] ->
  pinnedMessages s' = pinnedMessages s ->
  pinned_flag m = false ->
  Forall (fun p => id p <> id m) (pinnedMessages s) ->
  pin_consistent s -> pin_consistent s'.
Proof.
  intros Hm Hp Hflag Hfresh H. unfold pin_consistent.
  rewrite Hm. apply Forall_app. split.
  - unfold pin_consistent in H. by rewrite Hp.
  - by apply (pin_consistent_emptied s {| messages := [m];
      input := input s'; isLoading := isLoading s';
      inputHistory := inputHistory s'; historyIndex := historyIndex s';
      showTemplates := showTemplates s'; showExport := showExport s';
      isListening := isListening s'; isVoiceSupported := isVoiceSupported s';
      showPinnedPanel := showPinnedPanel s';
      pinnedMessages := pinnedMessages s'; theme := theme s' |} m).
Qed.

Lemma submit_keeps_pin_consistent env w :
  fresh_for env (store w) ->
  pin_consistent (store w) ->
  pin_consistent (store (exec (handleSubmit env (store w)) w)).
Proof.
  intros Hfresh H.
  destruct (input (store w)) as [text|] eqn:Hin;
    [|unfold handleSubmit; rewrite Hin; by run_handler].
  destruct (decide (trim text = [])) as [Hblank|Hblank].
  { unfold handleSubmit. rewrite Hin. run_handler.
    rewrite decide_True by done. by run_handler. }
  destruct (startsWith_slash text) eqn:Hcmd.
  - destruct (command_submit_effect env w text Hin Hcmd)
      as (Hm & _ & _ & _ & _ & _ & Hp & _).
    destruct Hm as [Hm|[said [Hm|Hm]]].
    + by eapply pin_consistent_frame.
    + by eapply pin_consistent_appended.
    + by eapply pin_consistent_emptied.
  - destruct (message_submit_first_pass env w text Hin Hblank Hcmd)
      as (Hm & _ & _ & _ & _ & Hp & _).
    by eapply pin_consistent_appended.
Qed.

Lemma step_keeps_pin_consistent env (ev : Event) w :
  fresh_for env (store w) ->
  pin_consistent (store w) ->
  pin_consistent (store (step env ev w)).
Proof.
  intros Hfresh H. unfold step, handler. destruct ev.
  - pose proof (submit_keeps_pin_consistent env w Hfresh H) as H'.
    unfold exec in *. run_handler.
    by destruct (handleSubmit env (store w) w) as [[?|?] ?].
  - unfold handleKeyDown.
    destruct key; run_handler;
      repeat match goal with
             | |- context [if ?b then _ else _] => destruct b
             end; by run_handler.
  - by run_handler.
  - unfold handleTemplateSelect. by run_handler.
  - by apply togglePin_preserves.
  - destruct callback. unfold run_timer. run_handler.
    by eapply pin_consistent_appended.
  - destruct (settled_appends_one_assistant_message env result w)
      as (_ & _ & g & Hm).
    eapply pin_consistent_appended; [exact Hm| |done|done|done].
    unfold handleSubmit_settled.
    destruct result as [|response]; [by run_handler|].
    run_handler. destruct (ok response); run_handler.
    + destruct (json_body response) as [data|]; run_handler; [|done].
      destruct data; by run_handler.
    + by destruct (text response); run_handler.
Qed.

(** The invariant of the data model along a whole session: from mount on,
    whatever events arrive, as long as each handler's generated id is not
    the id of a message pinned at that point. *)
Theorem pin_consistent_always (events : list (Env * Event)) w :
  pin_consistent (store w) ->
  (forall before env ev after,
     events = before ++ (env, ev) :: after ->
     fresh_for env (store (run before w))) ->
  pin_consistent (store (run events w)).
Proof.
  revert w. induction events as [|[env ev] events IH]; intros w H Hfresh;
    [done|].
  simpl. apply IH.
  - apply step_keeps_pin_consistent; [|done].
    by apply (Hfresh [] env ev events).
  - intros before env' ev' after ->.
    by apply (Hfresh ((env, ev) :: before) env' ev' after).
Qed.

End PinInvariant.

(** ** Further properties of the component *)

(** *** Walking the history *)

Section HistoryWalk.
Context {rt : Runtime} (env : Env).
Implicit Types (w : World) (k : nat).

Lemma arrowUp_keeps_history w :
  inputHistory (store (arrowUp env w)) = inputHistory (store w).
Proof.
  unfold arrowUp, step, handler, handleKeyDown. run_handler.
  repeat match goal with
         | |- context [if ?b then _ else _] => destruct b
         end; by run_handler.
Qed.

Lemma arrowUp_from k w :
  let len := length (inputHistory (store w)) in
  historyIndex (store w) = (Z.of_nat k - 1)%Z ->
  k < len ->
  historyIndex (store (arrowUp env w)) = Z.of_nat k
  /\ input (store (arrowUp env w))
     = inputHistory (store w) !! (len - 1 - k).
Proof.
  intros len Hi Hk. unfold arrowUp, step, handler, handleKeyDown.
  run_handler. fold len. rewrite Hi.
  destruct (Z.ltb_spec (Z.of_nat k - 1) (Z.of_nat len - 1)); [|lia].
  run_handler. split; [lia|]. unfold index.
  destruct (Z.ltb_spec (Z.of_nat len - 1 - (Z.of_nat k - 1 + 1)) 0); [lia|].
  f_equal. lia.
Qed.

(** From the cursor at rest, [k] presses of ArrowUp (at most as many as
    there are entries) put the cursor at [k - 1] and show the entry [k]
    places from the end of the stored list: the walk starts at the oldest
    submission and ends at the newest. *)
Theorem arrowUps_walk_from_oldest_to_newest k w :
  let len := length (inputHistory (store w)) in
  historyIndex (store w) = (-1)%Z ->
  1 <= k <= len ->
  let w' := arrowUps env k w in
  historyIndex (store w') = (Z.of_nat k - 1)%Z
  /\ input (store w') = inputHistory (store w) !! (len - k)
  /\ is_Some (input (store w'))
  /\ inputHistory (store w') = inputHistory (store w).
Proof.
  intros len Hrest [H1 Hk].
  assert (forall j, j <= len ->
            historyIndex (store (arrowUps env j w)) = (Z.of_nat j - 1)%Z
            /\ inputHistory (store (arrowUps env j w))
               = inputHistory (store w)
            /\ (1 <= j ->
                input (store (arrowUps env j w))
                = inputHistory (store w) !! (len - j))) as Hwalk.
  { induction j as [|j IH]; intros Hj.
    - simpl. split; [by rewrite Hrest|]. split; [done|lia].
    - destruct IH as (Hi & Hh & _); [lia|].
      change (arrowUps env (S j) w) with (arrowUp env (arrowUps env j w)).
      rewrite arrowUp_keeps_history.
      destruct (arrowUp_from j (arrowUps env j w)) as [Hi' Hin'].
      + done.
      + rewrite Hh. fold len. lia.
      + split; [lia|]. split; [done|]. intros _.
        rewrite Hin', Hh. fold len. f_equal. lia. }
  destruct (Hwalk k Hk) as (Hi & Hh & Hin). specialize (Hin H1).
  split; [done|]. split; [done|]. split; [|done].
  rewrite Hin. apply lookup_lt_is_Some. fold len. lia.
Qed.

(** Once the cursor is at the last index, further presses change
    nothing. *)
Lemma arrowUp_stops_at_newest w :
  historyIndex (store w)
  = (Z.of_nat (length (inputHistory (store w))) - 1)%Z ->
  0 < length (inputHistory (store w)) ->
  store (arrowUp env w) = store w.
Proof.
  intros Hi Hlen. unfold arrowUp, step, handler, handleKeyDown.
  run_handler. rewrite Hi.
  destruct (Z.ltb_spec (Z.of_nat (length (inputHistory (store w))) - 1)
              (Z.of_nat (length (inputHistory (store w))) - 1)); [lia|].
  destruct (Z.eqb_spec (Z.of_nat (length (inputHistory (store w))) - 1) (-1));
    [lia|]. by run_handler.
Qed.

(** ArrowDown takes back ArrowUp.  With the cursor inside the history and
    the buffer showing the cursor's entry, ArrowUp followed by ArrowDown
    restores the state.  From the cursor at rest the outcome depends on
    the history: when it holds at least one entry, the pair ends at rest
    again but with an empty buffer, whatever text was in it; when it is
    empty, the pair changes nothing and the typed text stays in the
    buffer.  ArrowDown at rest changes nothing. *)
Theorem arrowDown_takes_back_arrowUp w :
  let s := store w in
  let len := Z.of_nat (length (inputHistory s)) in
  ((0 <= historyIndex s < len - 1)%Z ->
   input s = index (inputHistory s) (len - 1 - historyIndex s) ->
   store (arrowDown env (arrowUp env w)) = s)
  /\ (historyIndex s = (-1)%Z -> (0 < len)%Z ->
      historyIndex (store (arrowDown env (arrowUp env w))) = (-1)%Z
      /\ input (store (arrowDown env (arrowUp env w))) = Some []
      /\ store (arrowDown env (arrowUp env w))
         = store (exec (setInput (Some [])) w))
  /\ (historyIndex s = (-1)%Z -> inputHistory s = [] ->
      store (arrowDown env (arrowUp env w)) = s)
  /\ (historyIndex s = (-1)%Z -> store (arrowDown env w) = s).
Proof.
  intros s len. subst s len. destruct w as [s t]. destruct s.
  unfold arrowDown, arrowUp, step, handler, handleKeyDown. simpl.
  set (len := Z.of_nat (length inputHistory0)).
  split; [|split; [|split]].
  - intros [H0 H1] Hin.
    destruct (Z.ltb_spec historyIndex0 (len - 1)); [|lia]. run_handler.
    fold len. destruct (Z.ltb_spec 0 (historyIndex0 + 1)); [|lia].
    run_handler. rewrite Hin. do 2 f_equal; lia.
  - intros -> Hlen.
    destruct (Z.ltb_spec (-1) (len - 1)); [|lia]. by run_handler.
  - intros -> ->. by run_handler.
  - intros ->. by run_handler.
Qed.

End HistoryWalk.

(** *** What the history holds *)

Lemma trimStart_clean_head (s : jsstring) : clean_head (trimStart s).
Proof.
  induction s as [|c s IH]; simpl; [done|].
  destruct (is_whitespace c) eqn:Hc; [done|]. simpl. done.
Qed.

Lemma trimStart_fixed (s : jsstring) : clean_head s -> trimStart s = s.
Proof. destruct s as [|c s]; simpl; [done|]. by intros ->. Qed.

Lemma trimStart_is_suffix (s : jsstring) : trimStart s `suffix_of` s.
Proof.
  induction s as [|c s IH]; simpl; [done|].
  destruct (is_whitespace c); [by apply suffix_cons_r | done].
Qed.

Lemma trimEnd_is_prefix (s : jsstring) : trimEnd s `prefix_of` s.
Proof.
  unfold trimEnd. apply prefix_suffix_reverse.
  rewrite reverse_involutive. apply trimStart_is_suffix.
Qed.

Lemma trimEnd_keeps_clean_head (s : jsstring) :
  clean_head s -> clean_head (trimEnd s).
Proof.
  intros H. destruct (trimEnd_is_prefix s) as [rest Hs].
  destruct (trimEnd s) as [|c t]; [done|].
  rewrite Hs in H. done.
Qed.

Lemma trimEnd_fixed (s : jsstring) :
  clean_head (reverse s) -> trimEnd s = s.
Proof.
  intros H. unfold trimEnd. rewrite trimStart_fixed by done.
  apply reverse_involutive.
Qed.

(** Trimming a trimmed text changes nothing. *)
Lemma trim_idempotent (s : jsstring) : trim (trim s) = trim s.
Proof.
  assert (clean_head (trim s)) as Hhead.
  { apply trimEnd_keeps_clean_head, trimStart_clean_head. }
  assert (clean_head (reverse (trim s))) as Hlast.
  { unfold trim, trimEnd. rewrite reverse_involutive.
    apply trimStart_clean_head. }
  unfold trim at 1. rewrite trimStart_fixed by done. by apply trimEnd_fixed.
Qed.

Section History.
Context {rt : Runtime}.
Implicit Types (w : World) (env : Env) (text : jsstring).

Lemma history_well_formed_push text (history : list jsstring) :
  trim text <> [] ->
  head history <> Some (trim text) ->
  history_well_formed history ->
  history_well_formed (trim text :: history).
Proof.
  intros Hblank Hnew [Hall Hrep]. split.
  - constructor; [|done]. split; [done | apply trim_idempotent].
  - destruct history as [|previous older]; [done|].
    split; [|done]. intros E. apply Hnew. simpl. by rewrite E.
Qed.

Lemma submit_keeps_history_well_formed env w :
  history_well_formed (inputHistory (store w)) ->
  history_well_formed
    (inputHistory (store (exec (handleSubmit env (store w)) w))).
Proof.
  intros H.
  destruct (input (store w)) as [text|] eqn:Hin;
    [|unfold handleSubmit; rewrite Hin; by run_handler].
  destruct (decide (trim text = [])) as [Hblank|Hblank].
  { unfold handleSubmit. rewrite Hin. run_handler.
    rewrite decide_True by done. by run_handler. }
  destruct (startsWith_slash text) eqn:Hcmd.
  - destruct (command_submit_effect env w text Hin Hcmd) as (_ & Hh & _).
    rewrite Hh. destruct (decide _); [|done]. by split.
  - destruct (message_submit_first_pass env w text Hin Hblank Hcmd)
      as (_ & Hh & _).
    rewrite Hh. destruct (decide _) as [|Hnew]; [done|].
    by apply history_well_formed_push.
Qed.

Lemma step_keeps_history_well_formed env (ev : Event) w :
  history_well_formed (inputHistory (store w)) ->
  history_well_formed (inputHistory (store (step env ev w))).
Proof.
  intros H. unfold step, handler. destruct ev.
  - pose proof (submit_keeps_history_well_formed env w H) as H'.
    unfold exec in *. run_handler.
    by destruct (handleSubmit env (store w) w) as [[?|?] ?].
  - unfold handleKeyDown.
    destruct key; run_handler;
      repeat match goal with
             | |- context [if ?b then _ else _] => destruct b
             end; by run_handler.
  - by run_handler.
  - unfold handleTemplateSelect. by run_handler.
  - unfold togglePinMessage.
    destruct (has_id message), (pinned_flag message); by run_handler.
  - destruct callback. unfold run_timer. by run_handler.
  - unfold handleSubmit_settled.
    destruct result as [|response]; [by run_handler|].
    run_handler. destruct (ok response); run_handler.
    + destruct (json_body response) as [data|]; run_handler; [|done].
      destruct data; by run_handler.
    + by destruct (text response); run_handler.
Qed.

Lemma run_keeps_history_well_formed (events : list (Env * Event)) w :
  history_well_formed (inputHistory (store w)) ->
  history_well_formed (inputHistory (store (run events w))).
Proof.
  revert w. induction events as [|[env ev] events IH]; intros w H; [done|].
  simpl. by apply IH, step_keeps_history_well_formed.
Qed.

(** Throughout a session the input history holds only texts that are
    trimmed and not blank, and never the same text in two neighbouring
    places: Submit stores the trimmed text, skips it when it equals the
    newest entry, and nothing else adds to the history.  This is kept
    from any state where it holds, and it holds once the component has
    mounted, whatever local storage returned and whether or not the
    browser offers speech recognition. *)
Theorem history_holds_trimmed_texts_without_repeats
    (events : list (Env * Event)) w :
  (history_well_formed (inputHistory (store w)) ->
   history_well_formed (inputHistory (store (run events w))))
  /\ forall storedTheme savedPinned speechRecognition,
       history_well_formed
         (inputHistory
            (store (run events
                      {| store := initial storedTheme savedPinned
                                    speechRecognition;
                         trace := [] |}))).
Proof.
  split; [apply run_keeps_history_well_formed|].
  intros. apply run_keeps_history_well_formed. by split.
Qed.

End History.

(** *** More on pinning *)

Section PinFrame.
Implicit Types (w : World) (m message : Message) (s : State).

(** Toggle Pin edits nothing but pin flags: the main list keeps its
    messages in place, each with its role, content, timestamp, command
    mark and id, and the input buffer, the history, the cursor and the
    loading flag are not touched; and it records no effect. *)
Theorem togglePin_only_changes_flags message w :
  let w' := exec (togglePinMessage message) w in
  unflagged <$> messages (store w') = unflagged <$> messages (store w)
  /\ input (store w') = input (store w)
  /\ inputHistory (store w') = inputHistory (store w)
  /\ historyIndex (store w') = historyIndex (store w)
  /\ isLoading (store w') = isLoading (store w)
  /\ trace w' = trace w.
Proof.
  unfold togglePinMessage.
  destruct (has_id message), (pinned_flag message); run_handler;
    try done.
  all: split; [|done]; rewrite <- list_fmap_compose; apply list_fmap_ext;
    intros ? m _; simpl; by destruct (decide _).
Qed.

Lemma filter_other_ids (pinnedList : list Message) (x : option jsstring) :
  Forall (fun p => id p <> x) pinnedList ->
  filter (fun p => id p <> x) pinnedList = pinnedList.
Proof.
  induction 1 as [|p l Hp Hl IH]; [done|].
  rewrite filter_cons_True by done. by rewrite IH.
Qed.

(** Pinning and then unpinning a message leaves the pinned list as it
    was, provided no entry carried the id before, and leaves no flag set
    on the messages with that id.  The second call is made on the message
    as the list shows it after the first, with its flag set. *)
Theorem pin_then_unpin_restores_pinned_list message w :
  has_id message = true ->
  pinned_flag message = false ->
  Forall (fun p => id p <> id message) (pinnedMessages (store w)) ->
  let w1 := exec (togglePinMessage message) w in
  let w2 := exec (togglePinMessage (with_isPinned true message)) w1 in
  pinnedMessages (store w1)
  = pinnedMessages (store w) ++ [with_isPinned true message]
  /\ pinnedMessages (store w2) = pinnedMessages (store w)
  /\ Forall (fun m => id m = id message -> pinned_flag m = false)
       (messages (store w2)).
Proof.
  intros Hid Hflag Hfresh w1 w2. subst w1 w2.
  unfold togglePinMessage.
  rewrite Hid, Hflag. run_handler.
  change (has_id (with_isPinned true message)) with (has_id message).
  change (pinned_flag (with_isPinned true message)) with true.
  change (id (with_isPinned true message)) with (id message).
  rewrite Hid. run_handler.
  split; [done|]. split.
  - rewrite filter_app, filter_other_ids by done.
    rewrite filter_cons_False by (simpl; tauto).
    by rewrite filter_nil, app_nil_r.
  - rewrite <- list_fmap_compose. apply Forall_fmap, Forall_true.
    intros m. simpl.
    destruct (decide (id m = id message)) as [E|E]; simpl.
    + by rewrite decide_True.
    + by rewrite decide_False.
Qed.

Lemma NoDup_fmap_filter {A B} (f : A -> B) (P : A -> Prop)
    `{forall x, Decision (P x)} (l : list A) :
  NoDup (f <$> l) -> NoDup (f <$> filter P l).
Proof.
  intros Hl. eapply sublist_NoDup; [exact Hl|].
  apply fmap_sublist, sublist_filter.
Qed.

Lemma togglePin_keeps_ids_distinct message w :
  pin_consistent (store w) ->
  rendered (store w) message ->
  pinned_ids_distinct (store w) ->
  pinned_ids_distinct (store (exec (togglePinMessage message) w)).
Proof.
  intros Hcons Hrend Hdist. unfold togglePinMessage, pinned_ids_distinct.
  destruct (has_id message) eqn:Hid; run_handler; [|done].
  destruct (pinned_flag message) eqn:Hflag; run_handler.
  - by apply NoDup_fmap_filter.
  - rewrite fmap_app. simpl. apply NoDup_app. split; [done|].
    split; [|apply NoDup_singleton].
    intros x Hx Hx'. apply list_elem_of_singleton in Hx' as ->.
    apply list_elem_of_fmap in Hx as (p & Hp & Hin).
    destruct Hrend as [Hmain|[_ Hset]]; [|congruence].
    unfold pin_consistent in Hcons. rewrite Forall_forall in Hcons.
    destruct (Hcons message Hmain) as [_ Hback].
    rewrite Hback in Hflag; [done|].
    apply Exists_exists. by exists p.
Qed.

(** As long as every Toggle Pin call is made on a message the interface
    renders at that point (a message of the main list, or a pinned-panel
    entry shown as pinned), the pinned list never holds two entries with
    the same id, and flags and pinned list stay in step. *)
Theorem rendered_toggles_keep_pinned_ids_distinct
    (calls : list Message) w :
  pin_consistent (store w) ->
  pinned_ids_distinct (store w) ->
  (forall before message after,
     calls = before ++ message :: after ->
     rendered (store (togglePins before w)) message) ->
  pinned_ids_distinct (store (togglePins calls w))
  /\ pin_consistent (store (togglePins calls w)).
Proof.
  revert w. induction calls as [|message calls IH];
    intros w Hcons Hdist Hrend; [done|].
  simpl. apply IH.
  - by apply togglePin_preserves.
  - apply togglePin_keeps_ids_distinct; [done| |done].
    by apply (Hrend [] message calls).
  - intros before m after ->.
    by apply (Hrend (message :: before) m after).
Qed.

End PinFrame.

(** *** More on the commands *)



Section MoreCommands.
Context {rt : Runtime} (env : Env).
Implicit Types (w : World) (cl : State) (command key : jsstring).


(** Dispatching any text whose normalized name is in the registry
    returns handled after appending exactly one feedback message, a system
    message marked as command output.  The message lands behind the
    messages shown before, except when the name is [clear] or [reset]:
    then, and only then, it is the only message left.  Only [reset]
    touches the history, which it empties, with the cursor at rest.  No
    request is issued, and the input buffer, the loading flag and the
    pinned list stay as they are. *)
Theorem registered_command_gives_one_feedback cl command (c : Command) w :
  let key := replace_slash (trim (toLowerCase command)) in
  slashCommands env cl !! key = Some c ->
  let w' := exec (handleSlashCommand env cl command) w in
  outcome (handleSlashCommand env cl command) w = Normal true
  /\ (exists feedback,
        role feedback = system /\ isCommand feedback = Some true
        /\ messages (store w')
           = (if decide (key = js "clear" \/ key = js "reset")
              then [] else messages (store w))
             ++ [feedback])
  /\ inputHistory (store w')
     = (if decide (key = js "reset") then [] else inputHistory (store w))
  /\ historyIndex (store w')
     = (if decide (key = js "reset") then -1 else historyIndex (store w))%Z
  /\ input (store w') = input (store w)
  /\ isLoading (store w') = isLoading (store w)
  /\ pinnedMessages (store w') = pinnedMessages (store w)
  /\ filter is_request (trace w') = filter is_request (trace w).
Proof.
  intros key Hlook w'. subst w'.
  destruct (action_feedback env cl _ c w Hlook)
    as (Ho & _ & Hh & Hx & Hi & Hl & Hp & Hr).
  destruct (action_feedback_list env cl _ c w Hlook) as (said & Hm).
  fold key in Hh, Hx, Hm.
  unfold handleSlashCommand, slashCommands_get. fold key. rewrite Hlook.
  unfold outcome, exec in *. run_handler.
  destruct (action c w) as [r w2]. simpl in *. subst r. simpl.
  split; [done|]. split; [|done].
  exists (commandMessage env said). done.
Qed.


(** [exportChat] exports exactly the messages its render saw and closes
    the export dialog then; with no messages it only alerts and leaves
    the dialog open; in neither case does it change the conversation,
    the pinned list or the history. *)
Theorem exportChat_exports_what_is_shown cl w :
  let w' := exec (exportChat cl) w in
  messages (store w') = messages (store w)
  /\ pinnedMessages (store w') = pinnedMessages (store w)
  /\ inputHistory (store w') = inputHistory (store w)
  /\ (messages cl = [] ->
      trace w' = trace w ++ [Alert (js "No messages to export!")]
      /\ showExport (store w') = showExport (store w))
  /\ (messages cl <> [] ->
      trace w' = trace w ++ [Download (messages cl)]
      /\ showExport (store w') = false).
Proof.
  unfold exportChat.
  destruct (decide (length (messages cl) = 0)) as [H0|Hn]; run_handler.
  - repeat (split; [done|]).
    intros Hne. by destruct (messages cl).
  - do 3 (split; [done|]). split; [|done].
    intros E. by rewrite E in Hn.
Qed.


(** A recognition result appends its transcript to what the buffer
    holds, keeping the text typed so far, and ends listening; an error
    ends listening too and raises the alert only for ["no-speech"]; the
    end of recognition lowers the listening flag and does nothing else;
    none of the three callbacks touches the conversation. *)
Theorem recognition_result_extends_the_buffer
    (typed transcript error : jsstring) w :
  input (store w) = Some typed ->
  let wr := exec (onresult transcript) w in
  let we := exec (onerror error) w in
  input (store wr) = Some (typed ++ transcript)
  /\ isListening (store wr) = false
  /\ isListening (store we) = false
  /\ isListening (store (exec onend w)) = false
  /\ input (store we) = Some typed
  /\ trace we
     = trace w ++ ConsoleError
         :: (if decide (error = js "no-speech")
             then [Alert (js "No speech detected. Please try again.")]
             else [])
  /\ messages (store wr) = messages (store w)
  /\ messages (store we) = messages (store w)
  /\ messages (store (exec onend w)) = messages (store w)
  /\ input (store (exec onend w)) = Some typed
  /\ trace (exec onend w) = trace w.
Proof.
  intros Hin. unfold onresult, onerror, onend, plus_transcript.
  run_handler. rewrite Hin. simpl.
  destruct (decide (error = js "no-speech")); run_handler;
    rewrite ?Hin, <- ?app_assoc; done.
Qed.

End MoreCommands.

(** *** A whole exchange *)

Section Exchange.
Context {rt : Runtime}.
Implicit Types (w : World) (env : Env) (text : jsstring).




End Exchange.

(** *** The long-press timer *)

Section LongPressFacts.
Import LongPress.
Implicit Types (p : Press) (g : Gesture) (message : Message).

Lemma idle_tracked : tracked idle.
Proof. intros timer entry H. simpl in H. by rewrite lookup_empty in H. Qed.

Lemma react_keeps_tracked g p : tracked p -> tracked (react g p).
Proof.
  intros Htr. destruct g as [message| | |timer]; simpl.
  - unfold handleMouseDown, tracked. simpl.
    intros timer entry Hlook.
    destruct (decide (timer = next
                (match longPressTimer p with
                 | Some old => clearTimeout old (timers p)
                 | None => timers p
                 end))) as [->|Hne].
    + split; [done|]. destruct (longPressTimer p); simpl; lia.
    + rewrite lookup_insert_ne in Hlook by done.
      destruct (longPressTimer p) as [old|] eqn:Hold; simpl in *.
      * destruct (decide (timer = old)) as [->|Hne'].
        -- by rewrite lookup_delete_eq in Hlook.
        -- rewrite lookup_delete_ne in Hlook by done.
           destruct (Htr timer entry Hlook) as [E _]. congruence.
      * destruct (Htr timer entry Hlook) as [E _]. congruence.
  - unfold handleMouseUp, tracked.
    destruct (longPressTimer p) as [old|] eqn:Hold; simpl;
      [|exact Htr].
    intros timer entry Hlook.
    destruct (decide (timer = old)) as [->|Hne].
    + by rewrite lookup_delete_eq in Hlook.
    + rewrite lookup_delete_ne in Hlook by done.
      destruct (Htr timer entry Hlook) as [E _]. congruence.
  - unfold handleMouseLeave, tracked.
    destruct (longPressTimer p) as [old|] eqn:Hold; simpl;
      [|exact Htr].
    intros timer entry Hlook.
    destruct (decide (timer = old)) as [->|Hne].
    + by rewrite lookup_delete_eq in Hlook.
    + rewrite lookup_delete_ne in Hlook by done.
      destruct (Htr timer entry Hlook) as [E _]. congruence.
  - unfold fire, tracked.
    destruct (pending (timers p) !! timer) as [[message ms]|] eqn:Hfire;
      simpl; [|done].
    intros timer' entry Hlook.
    destruct (decide (timer' = timer)) as [->|Hne].
    + by rewrite lookup_delete_eq in Hlook.
    + rewrite lookup_delete_ne in Hlook by done. by apply (Htr timer' entry).
Qed.

Lemma gestures_tracked (gs : list Gesture) p :
  tracked p -> tracked (gestures gs p).
Proof.
  revert p. induction gs as [|g gs IH]; intros p H; [done|].
  simpl. by apply IH, react_keeps_tracked.
Qed.

(** Whatever was pressed, released, left or has elapsed before, at most
    one long-press timer is pending, and it is the one of the most recent
    press: a timer that fires toggles the message the hook's timer was
    armed for. *)
Theorem long_press_has_one_timer (gs : list Gesture) :
  let p := gestures gs idle in
  forall timer1 timer2 entry1 entry2,
    pending (timers p) !! timer1 = Some entry1 ->
    pending (timers p) !! timer2 = Some entry2 ->
    timer1 = timer2 /\ longPressTimer p = Some timer1.
Proof.
  intros p timer1 timer2 entry1 entry2 H1 H2.
  pose proof (gestures_tracked gs idle idle_tracked) as Htr. fold p in Htr.
  destruct (Htr _ _ H1) as [E1 _]. destruct (Htr _ _ H2) as [E2 _].
  split; [congruence | done].
Qed.

(** Releasing or leaving cancels the press: no timer is pending after
    it, so nothing that elapses afterwards toggles a pin; and a press that
    is held arms exactly one timer, of 500 ms, for the pressed message. *)
Theorem release_cancels_the_long_press (gs : list Gesture) message :
  let p := gestures gs idle in
  pending (timers (handleMouseUp p)) = ∅
  /\ pending (timers (handleMouseLeave p)) = ∅
  /\ (forall timer, (fire timer (handleMouseUp p)).1 = None)
  /\ (forall timer, (fire timer (handleMouseLeave p)).1 = None)
  /\ exists timer,
       longPressTimer (handleMouseDown message p) = Some timer
       /\ pending (timers (handleMouseDown message p))
          = {[ timer := (message, 500%Z) ]}
       /\ (fire timer (handleMouseDown message p)).1 = Some message.
Proof.
  intros p.
  pose proof (gestures_tracked gs idle idle_tracked) as Htr. fold p in Htr.
  assert (pending (timers (handleMouseUp p)) = ∅) as Hup.
  { apply map_eq. intros timer. rewrite lookup_empty.
    destruct (pending (timers (handleMouseUp p)) !! timer) as [entry|] eqn:H;
      [|done].
    destruct (react_keeps_tracked Up p Htr timer entry H) as [E _].
    simpl in E. unfold handleMouseUp in E, H.
    destruct (longPressTimer p) as [old|] eqn:Hold; simpl in *; [done|].
    destruct (Htr timer entry H) as [E' _]. congruence. }
  assert (pending (timers (handleMouseLeave p)) = ∅) as Hleave by exact Hup.
  split; [done|]. split; [done|].
  split; [intros timer; unfold fire; by rewrite Hup, lookup_empty|].
  split; [intros timer; unfold fire; by rewrite Hleave, lookup_empty|].
  unfold handleMouseDown. simpl.
  set (t := match longPressTimer p with
            | Some old => clearTimeout old (timers p)
            | None => timers p
            end).
  assert (pending t = ∅) as Ht.
  { subst t. destruct (longPressTimer p) as [old|] eqn:Hold.
    - unfold handleMouseUp in Hup. by rewrite Hold in Hup.
    - unfold handleMouseUp in Hup. by rewrite Hold in Hup. }
  exists (next t). split; [done|]. split.
  - rewrite Ht. apply insert_empty.
  - unfold fire. simpl. by rewrite lookup_insert_eq.
Qed.

End LongPressFacts.

(** *** Signing in *)

Section SignIn.
Import Auth.
Implicit Types (s email password : jsstring) (re : list Atom) (p : Page).

Lemma plus_then_spec (class : N -> bool) (rest : jsstring -> bool) s :
  plus_then class rest s = true <->
  exists run s',
    s = run ++ s' /\ run <> [] /\ forallb class run = true
    /\ rest s' = true.
Proof.
  induction s as [|c s IH]; simpl.
  - split; [done|]. intros (run & s' & Hs & Hne & _).
    by destruct run.
  - rewrite andb_true_iff, orb_true_iff, IH. split.
    + intros [Hc [(run & s' & -> & Hne & Hall & Hrest)|Hrest]].
      * exists (c :: run), s'. simpl. by rewrite Hc, Hall.
      * exists [c], s. simpl. by rewrite Hc.
    + intros (run & s' & Hs & Hne & Hall & Hrest).
      destruct run as [|d run]; [done|]. simpl in Hs, Hall.
      injection Hs as -> ->. apply andb_true_iff in Hall as [Hc Hall].
      split; [done|]. destruct run as [|e run]; [by right|].
      left. by exists (e :: run), s'.
Qed.

(** The matcher decides the words of the expression. *)
Lemma test_matches re s : test re s = true <-> matches re s.
Proof.
  revert s. induction re as [|[c|class] re IH]; intros s; simpl.
  - by destruct s.
  - destruct s as [|d s].
    + split; [done|]. by intros (s' & ? & _).
    + rewrite andb_true_iff, N.eqb_eq, IH. split.
      * intros [-> H]. by exists s.
      * intros (s' & E & H). by injection E as -> ->.
  - rewrite plus_then_spec. by setoid_rewrite IH.
Qed.

(** [validateEmail] accepts exactly the texts of the shape
    [local@domain.tld] whose three parts are not empty and hold neither
    white space nor [@]. *)
Theorem validateEmail_accepts_exactly_local_at_domain_dot_tld email :
  validateEmail email = true <->
  exists localPart domain tld,
    email = localPart ++ [0x40%N] ++ domain ++ [0x2E%N] ++ tld
    /\ localPart <> [] /\ domain <> [] /\ tld <> []
    /\ forallb not_space_or_at localPart = true
    /\ forallb not_space_or_at domain = true
    /\ forallb not_space_or_at tld = true.
Proof.
  unfold validateEmail. rewrite test_matches. simpl. split.
  - intros (l & s1 & -> & Hl & Hal & s2 & -> & d & s3 & -> & Hd & Had
            & s4 & -> & t & s5 & -> & Ht & Hat & ->).
    exists l, d, t. rewrite app_nil_r. done.
  - intros (l & d & t & -> & Hl & Hd & Ht & Hal & Had & Hat).
    exists l, ([0x40%N] ++ d ++ [0x2E%N] ++ t). repeat (split; [done|]).
    exists (d ++ [0x2E%N] ++ t). split; [done|].
    exists d, ([0x2E%N] ++ t). repeat (split; [done|]).
    exists t. split; [done|].
    exists t, []. by rewrite app_nil_r.
Qed.

Lemma forallb_not_space_or_at (run : jsstring) :
  forallb not_space_or_at run = true ->
  forallb (fun c => negb (is_whitespace c)) run = true
  /\ count_occ N.eq_dec run 0x40%N = 0.
Proof.
  induction run as [|c run IH]; simpl; [done|].
  intros [Hc Hrun]%andb_true_iff. destruct (IH Hrun) as [Hws Hat].
  unfold not_space_or_at in Hc. apply andb_true_iff in Hc as [Hc1 Hc2].
  rewrite Hc1, Hws. split; [done|].
  destruct (N.eq_dec c 64%N) as [->|_]; [done|]. exact Hat.
Qed.

(** An accepted address is not empty, holds no white space at all, and
    holds exactly one [@]. *)
Theorem validateEmail_rejects_spaces_and_extra_at email :
  validateEmail email = true ->
  email <> []
  /\ forallb (fun c => negb (is_whitespace c)) email = true
  /\ count_occ N.eq_dec email 0x40%N = 1.
Proof.
  unfold validateEmail. rewrite test_matches. simpl.
  intros (l & s1 & -> & Hl & Hal & s2 & -> & d & s3 & -> & Hd & Had
          & s4 & -> & t & s5 & -> & Ht & Hat & ->).
  rewrite app_nil_r.
  change (l ++ 64%N :: d ++ 46%N :: t)
    with (l ++ [64%N] ++ d ++ [46%N] ++ t).
  destruct (forallb_not_space_or_at l Hal) as [Wl Cl].
  destruct (forallb_not_space_or_at d Had) as [Wd Cd].
  destruct (forallb_not_space_or_at t Hat) as [Wt Ct].
  split; [by destruct l|]. split.
  - rewrite !forallb_app, Wl, Wd, Wt. done.
  - rewrite !count_occ_app, Cl, Cd, Ct. done.
Qed.

End SignIn.

Section LoginForm.
Import Auth.
Implicit Types (p : Page).

Lemma valid_email_nonempty (address : jsstring) :
  validateEmail address = true -> nonempty address = true.
Proof.
  intros H. destruct address; [|done]. vm_compute in H. discriminate.
Qed.

(** The login form turns down an address the expression does not accept,
    and after that a password of fewer than six code units, each with
    its own message; in both cases nobody is signed in or out, nothing is
    navigated to, and the busy flag and the typed fields stay as they
    were. *)
Theorem login_rejects_invalid_input p :
  let p' := handleSubmit p in
  (validateEmail (email (form p)) = false ->
   error (form p') = js "Please enter a valid email address"
   /\ isAuthenticated p' = isAuthenticated p
   /\ navigated p' = navigated p
   /\ isLoading (form p') = isLoading (form p)
   /\ email (form p') = email (form p)
   /\ password (form p') = password (form p))
  /\ (validateEmail (email (form p)) = true ->
      length (password (form p)) < 6 ->
      error (form p') = js "Password must be at least 6 characters long"
      /\ isAuthenticated p' = isAuthenticated p
      /\ navigated p' = navigated p
      /\ isLoading (form p') = isLoading (form p)
      /\ email (form p') = email (form p)
      /\ password (form p') = password (form p)).
Proof.
  unfold handleSubmit. split.
  - intros Hbad. by rewrite Hbad.
  - intros Hok Hshort. rewrite Hok. simpl.
    destruct (Z.ltb_spec (Z.of_nat (length (password (form p)))) 6); [done|].
    lia.
Qed.

Lemma valid_login p :
  validateEmail (email (form p)) = true ->
  6 <= length (password (form p)) ->
  handleSubmit p
  = {| form := {| email := email (form p); password := password (form p);
                  error := []; isLoading := false |};
       isAuthenticated := true;
       navigated := navigated p ++ [js "/chat"] |}.
Proof.
  intros Hok Hlong. unfold handleSubmit. rewrite Hok. simpl.
  destruct (Z.ltb_spec (Z.of_nat (length (password (form p)))) 6); [lia|].
  unfold login. simpl. rewrite (valid_email_nonempty _ Hok).
  assert (nonempty (password (form p)) = true) as ->.
  { destruct (password (form p)); simpl in *; [lia|done]. }
  done.
Qed.

(** Once the address is accepted and the password has six code units or
    more, signing in cannot fail: both are then non-empty, so [login]
    resolves.  The visitor is authenticated, sent to [/chat] and nowhere
    else, the error is blank and the busy flag is down.  Hence in no case
    at all does the form end with the message of a rejected [login], and
    it never signs anybody out. *)
Theorem login_succeeds_once_input_is_valid p :
  let p' := handleSubmit p in
  (validateEmail (email (form p)) = true ->
   6 <= length (password (form p)) ->
   isAuthenticated p' = true
   /\ navigated p' = navigated p ++ [js "/chat"]
   /\ error (form p') = []
   /\ isLoading (form p') = false)
  /\ error (form p') <> js "Invalid credentials"
  /\ (isAuthenticated p = true -> isAuthenticated p' = true).
Proof.
  unfold handleSubmit.
  destruct (validateEmail (email (form p))) eqn:Hok; simpl.
  - destruct (Z.ltb_spec (Z.of_nat (length (password (form p)))) 6)
      as [Hshort|Hlong].
    + split; [intros _ ?; lia|]. split; [|done].
      simpl. intros E. vm_compute in E. discriminate.
    + unfold login. simpl. rewrite (valid_email_nonempty _ Hok).
      assert (nonempty (password (form p)) = true) as ->.
      { destruct (password (form p)); simpl in *; [lia|done]. }
      simpl. split; [done|]. split; [|done].
      intros E. vm_compute in E. discriminate.
  - split; [done|]. split; [|done].
    simpl. intros E. vm_compute in E. discriminate.
Qed.

Lemma chat_route_element (flag : bool) :
  route_element flag (js "/chat") = Some (ProtectedRoute flag ChatView).
Proof. by vm_compute. Qed.

(** The chat view is behind the guard: the route table holds it only for
    an authenticated visitor, and then only under [/chat]; for anybody
    else that route, like the catch-all, redirects to [/login], where the
    table holds the login view.  So a valid sign-in ends on the chat view,
    and after [logout] the same route leads back to the login view. *)
Theorem chat_view_needs_authentication (flag : bool) p :
  (forall pattern view,
     (pattern, view) ∈ AppRoutes flag -> view = ChatView ->
     flag = true /\ pattern = js "/chat")
  /\ route_element false (js "/chat") = Some (Navigate (js "/login"))
  /\ route_element flag (js "*") = Some (Navigate (js "/login"))
  /\ route_element flag (js "/login") = Some LoginView
  /\ (validateEmail (email (form p)) = true ->
      6 <= length (password (form p)) ->
      exists target,
        last (navigated (handleSubmit p)) = Some target
        /\ route_element (isAuthenticated (handleSubmit p)) target
           = Some ChatView)
  /\ route_element (logout flag) (js "/chat")
     = Some (Navigate (js "/login")).
Proof.
  split; [|split; [by vm_compute|split; [by destruct flag; vm_compute|
          split; [by destruct flag; vm_compute|split; [|by vm_compute]]]]].
  - intros pattern view Hin ->. unfold AppRoutes in Hin.
    repeat (apply elem_of_cons in Hin as [Hin|Hin];
            [injection Hin as -> Hview;
             try discriminate Hview|]);
      [|by apply elem_of_nil in Hin].
    by destruct flag.
  - intros Hok Hlong.
    rewrite (valid_login p Hok Hlong). simpl.
    exists (js "/chat"). rewrite last_snoc.
    split; [done|]. by rewrite chat_route_element.
Qed.

End LoginForm.

(** *** The further properties at work *)

Lemma arrowUps_walk_from_oldest_to_newest_witness :
  let w := Samples.browsing in
  let w' := arrowUps (H := plain_runtime) Samples.env 2 w in
  (historyIndex (store w) = (-1)%Z
   /\ 1 <= 2 <= length (inputHistory (store w)))
  /\ historyIndex (store w') = 1%Z
  /\ input (store w') = Some (js "b").
Proof.
  intros w w'.
  assert (historyIndex (store w) = (-1)%Z) as H1 by reflexivity.
  assert (1 <= 2 <= length (inputHistory (store w))) as H2
    by (simpl; lia).
  destruct (arrowUps_walk_from_oldest_to_newest (rt := plain_runtime)
              Samples.env 2 w H1 H2) as (Hi & Hin & _).
  split; [split; [exact H1 | exact H2]|]. split; [exact Hi | exact Hin].
Defined.

Lemma arrowDown_takes_back_arrowUp_witness :
  let up := arrowUp (H := plain_runtime) Samples.env in
  let down := arrowDown (H := plain_runtime) Samples.env in
  let rest := Samples.typed (js "half a thought") Samples.browsing in
  let fresh := Samples.typed (js "half a thought") Samples.mounted in
  let inside := up Samples.browsing in
  ((0 <= historyIndex (store inside) < 2 - 1)%Z
   /\ input (store inside) = Some (js "a")
   /\ historyIndex (store rest) = (-1)%Z
   /\ (0 < Z.of_nat (length (inputHistory (store rest))))%Z
   /\ historyIndex (store fresh) = (-1)%Z
   /\ inputHistory (store fresh) = [])
  /\ store (down (up inside)) = store inside
  /\ input (store (down (up rest))) = Some []
  /\ store (down (up fresh)) = store fresh
  /\ store (down rest) = store rest.
Proof.
  intros up down rest fresh inside.
  assert ((0 <= historyIndex (store inside) < 2 - 1)%Z) as H1
    by (simpl; lia).
  assert (input (store inside) = Some (js "a")) as H2 by reflexivity.
  assert (historyIndex (store rest) = (-1)%Z) as H3 by reflexivity.
  assert (0 < Z.of_nat (length (inputHistory (store rest))))%Z as H4
    by (simpl; lia).
  assert (historyIndex (store fresh) = (-1)%Z) as H5 by reflexivity.
  assert (inputHistory (store fresh) = []) as H6 by reflexivity.
  destruct (arrowDown_takes_back_arrowUp (rt := plain_runtime)
              Samples.env inside) as (Hback & _ & _ & _).
  destruct (arrowDown_takes_back_arrowUp (rt := plain_runtime)
              Samples.env rest) as (_ & Hdraft & _ & Hnoop).
  destruct (arrowDown_takes_back_arrowUp (rt := plain_runtime)
              Samples.env fresh) as (_ & _ & Hkept & _).
  destruct (Hdraft H3 H4) as (_ & Hempty & _).
  split; [exact (conj H1 (conj H2 (conj H3 (conj H4 (conj H5 H6)))))|].
  split; [exact (Hback H1 H2)|]. split; [exact Hempty|].
  split; [exact (Hkept H5 H6) | exact (Hnoop H3)].
Defined.

Lemma cursor_in_range_always_witness :
  let events :=
    [ (Samples.env, KeyDown ArrowUp);
      (Samples.env, Change (js "draft"));
      (Samples.env_without_key, Submit) ] in
  let w := Samples.browsing in
  cursor_in_range (store w)
  /\ cursor_in_range (store (run (H := plain_runtime) events w))
  /\ cursor_in_range
       (store (run (H := plain_runtime) events
                 {| store := initial (js "dark") [Samples.hello] true;
                    trace := [] |})).
Proof.
  intros events w.
  assert (cursor_in_range (store w)) as H
    by (split; [simpl; lia | by eexists]).
  destruct (cursor_in_range_always (rt := plain_runtime) events w)
    as [Hkept Hmount].
  split; [exact H|]. split; [exact (Hkept H)|].
  exact (Hmount (js "dark") [Samples.hello] true).
Defined.

Lemma history_holds_trimmed_texts_without_repeats_witness :
  let events :=
    [ (Samples.env, Change (js "  b "));
      (Samples.env_without_key, Submit);
      (Samples.env, Change (js "c"));
      (Samples.env_without_key, Submit) ] in
  let w := Samples.browsing in
  history_well_formed (inputHistory (store w))
  /\ history_well_formed
       (inputHistory (store (run (H := plain_runtime) events w)))
  /\ history_well_formed
       (inputHistory
          (store (run (H := plain_runtime) events
                    {| store := initial (js "dark") [Samples.hello] true;
                       trace := [] |}))).
Proof.
  intros events w.
  assert (history_well_formed (inputHistory (store w))) as H.
  { split.
    - repeat constructor; try (vm_compute; discriminate).
    - split; [vm_compute; discriminate | exact I]. }
  destruct (history_holds_trimmed_texts_without_repeats
              (rt := plain_runtime) events w) as [Hkept Hmount].
  split; [exact H|]. split; [exact (Hkept H)|].
  exact (Hmount (js "dark") [Samples.hello] true).
Defined.

Lemma pin_then_unpin_restores_pinned_list_witness :
  let w := Cases.conversation in
  let w1 := exec (togglePinMessage Samples.hello) w in
  let w2 := exec (togglePinMessage (with_isPinned true Samples.hello)) w1 in
  (has_id Samples.hello = true
   /\ pinned_flag Samples.hello = false
   /\ Forall (fun p => id p <> id Samples.hello) (pinnedMessages (store w)))
  /\ pinnedMessages (store w1) = [with_isPinned true Samples.hello]
  /\ pinnedMessages (store w2) = [].
Proof.
  intros w w1 w2.
  assert (has_id Samples.hello = true) as H1 by reflexivity.
  assert (pinned_flag Samples.hello = false) as H2 by reflexivity.
  assert (Forall (fun p => id p <> id Samples.hello)
            (pinnedMessages (store w))) as H3 by constructor.
  destruct (pin_then_unpin_restores_pinned_list Samples.hello w H1 H2 H3)
    as (Hp1 & Hp2 & _).
  split; [split; [exact H1 | split; [exact H2 | exact H3]]|].
  split; [exact Hp1 | exact Hp2].
Defined.

Lemma rendered_toggles_keep_pinned_ids_distinct_witness :
  let w := Cases.conversation in
  let calls := [Samples.hello; Cases.reply_text] in
  (pin_consistent (store w) /\ pinned_ids_distinct (store w)
   /\ rendered (store w) Samples.hello
   /\ rendered (store (togglePins [Samples.hello] w)) Cases.reply_text)
  /\ pinned_ids_distinct (store (togglePins calls w))
  /\ pin_consistent (store (togglePins calls w)).
Proof.
  intros w calls.
  assert (pin_consistent (store w)) as H1.
  { unfold pin_consistent. simpl.
    repeat constructor; try discriminate; intros E; inversion E. }
  assert (pinned_ids_distinct (store w)) as H2 by constructor.
  assert (rendered (store w) Samples.hello) as H3
    by (left; simpl; apply list_elem_of_here).
  assert (rendered (store (togglePins [Samples.hello] w)) Cases.reply_text)
    as H4.
  { left. simpl. apply list_elem_of_further, list_elem_of_here. }
  assert (forall before message after,
            calls = before ++ message :: after ->
            rendered (store (togglePins before w)) message) as Hall.
  { intros before message after E. subst calls.
    destruct before as [|b1 [|b2 [|b3 before]]]; simpl in E.
    - injection E as <- _. exact H3.
    - injection E as <- <- _. exact H4.
    - injection E as _ _ E. discriminate E.
    - injection E as _ _ E. discriminate E. }
  split; [split; [exact H1 | split; [exact H2 | split; [exact H3 | exact H4]]]|].
  exact (rendered_toggles_keep_pinned_ids_distinct calls w H1 H2 Hall).
Defined.


Lemma registered_command_gives_one_feedback_witness :
  let cl := store Cases.conversation in
  let command := js "/Stats" in
  let w' := exec (handleSlashCommand (rt := plain_runtime) Samples.env cl
                    command) Cases.conversation in
  let cleared := exec (handleSlashCommand (rt := plain_runtime) Samples.env
                         cl (js "/clear")) Cases.conversation in
  (slashCommands (rt := plain_runtime) Samples.env cl
     !! replace_slash (trim (toLowerCase (Runtime := plain_runtime) command))
   = Some (stats (rt := plain_runtime) Samples.env cl)
   /\ slashCommands (rt := plain_runtime) Samples.env cl
        !! replace_slash
             (trim (toLowerCase (Runtime := plain_runtime) (js "/clear")))
      = Some (clear Samples.env))
  /\ outcome (handleSlashCommand (rt := plain_runtime) Samples.env cl
                command) Cases.conversation = Normal true
  /\ (exists feedback,
        messages (store w')
        = messages (store Cases.conversation) ++ [feedback])
  /\ (exists feedback, messages (store cleared) = [feedback])
  /\ inputHistory (store cleared) = inputHistory (store Cases.conversation)
  /\ pinnedMessages (store w') = pinnedMessages (store Cases.conversation)
  /\ filter is_request (trace w')
     = filter is_request (trace Cases.conversation).
Proof.
  intros cl command w' cleared.
  assert (slashCommands (rt := plain_runtime) Samples.env cl
            !! replace_slash
                 (trim (toLowerCase (Runtime := plain_runtime) command))
          = Some (stats (rt := plain_runtime) Samples.env cl)) as H
    by reflexivity.
  assert (slashCommands (rt := plain_runtime) Samples.env cl
            !! replace_slash
                 (trim (toLowerCase (Runtime := plain_runtime)
                          (js "/clear")))
          = Some (clear Samples.env)) as H'
    by reflexivity.
  destruct (registered_command_gives_one_feedback (rt := plain_runtime)
              Samples.env cl command _ Cases.conversation H)
    as (Ho & (said & _ & _ & Hm) & _ & _ & _ & _ & Hp & Hr).
  destruct (registered_command_gives_one_feedback (rt := plain_runtime)
              Samples.env cl (js "/clear") _ Cases.conversation H')
    as (_ & (gone & _ & _ & Hm') & Hh & _).
  split; [exact (conj H H')|]. split; [exact Ho|].
  split; [exists said; exact (eq_trans Hm eq_refl)|].
  split; [exists gone; exact (eq_trans Hm' eq_refl)|].
  split; [exact (eq_trans Hh eq_refl)|].
  split; [exact Hp | exact Hr].
Defined.


Lemma exportChat_exports_what_is_shown_witness :
  let empty := Samples.mounted in
  let full := Cases.conversation in
  (messages (store empty) = [] /\ messages (store full) <> [])
  /\ trace (exec (exportChat (store empty)) empty)
     = [Alert (js "No messages to export!")]
  /\ trace (exec (exportChat (store full)) full)
     = [Download [Samples.hello; Cases.reply_text]]
  /\ showExport (store (exec (exportChat (store full)) full)) = false.
Proof.
  intros empty full.
  assert (messages (store empty) = []) as H1 by reflexivity.
  assert (messages (store full) <> []) as H2 by discriminate.
  destruct (exportChat_exports_what_is_shown (store empty) empty)
    as (_ & _ & _ & Hnone & _).
  destruct (exportChat_exports_what_is_shown (store full) full)
    as (_ & _ & _ & _ & Hsome).
  destruct (Hnone H1) as [Ha _]. destruct (Hsome H2) as [Hd Hs].
  split; [split; [exact H1 | exact H2]|].
  split; [exact Ha|]. split; [exact Hd | exact Hs].
Defined.


Lemma recognition_result_extends_the_buffer_witness :
  let w := Cases.voice_ready in
  input (store w) = Some (js "note: ")
  /\ input (store (exec (onresult (js "buy milk")) w))
     = Some (js "note: " ++ js "buy milk")
  /\ isListening (store (exec (onresult (js "buy milk")) w)) = false
  /\ trace (exec (onerror (js "no-speech")) w)
     = [ConsoleError; Alert (js "No speech detected. Please try again.")].
Proof.
  intros w.
  assert (input (store w) = Some (js "note: ")) as H by reflexivity.
  destruct (recognition_result_extends_the_buffer
              (js "note: ") (js "buy milk") (js "no-speech") w H)
    as (Hin & Hl & _ & _ & _ & Ht & _).
  split; [exact H|]. split; [exact Hin|]. split; [exact Hl | exact Ht].
Defined.


Lemma long_press_has_one_timer_witness :
  let p := LongPress.gestures
             [LongPress.Down Samples.hello; LongPress.Down Cases.reply_text]
             LongPress.idle in
  LongPress.pending (LongPress.timers p) !! 2%positive
  = Some (Cases.reply_text, 500%Z)
  /\ LongPress.longPressTimer p = Some 2%positive
  /\ LongPress.pending (LongPress.timers p) !! 1%positive = None.
Proof.
  intros p.
  assert (LongPress.pending (LongPress.timers p) !! 2%positive
          = Some (Cases.reply_text, 500%Z)) as H
    by (vm_compute; reflexivity).
  destruct (long_press_has_one_timer
              [LongPress.Down Samples.hello; LongPress.Down Cases.reply_text]
              _ _ _ _ H H) as [_ Hhook].
  split; [exact H|]. split; [exact Hhook|]. vm_compute. reflexivity.
Defined.

Lemma validateEmail_accepts_exactly_local_at_domain_dot_tld_witness :
  Auth.validateEmail (js "ada@example.org") = true
  /\ exists localPart domain tld,
       js "ada@example.org"
       = localPart ++ [0x40%N] ++ domain ++ [0x2E%N] ++ tld
       /\ localPart <> [] /\ domain <> [] /\ tld <> []
       /\ forallb Auth.not_space_or_at localPart = true
       /\ forallb Auth.not_space_or_at domain = true
       /\ forallb Auth.not_space_or_at tld = true.
Proof.
  assert (Auth.validateEmail (js "ada@example.org") = true) as H
    by (vm_compute; reflexivity).
  split; [exact H|].
  exact (proj1 (validateEmail_accepts_exactly_local_at_domain_dot_tld
                  (js "ada@example.org")) H).
Defined.

Lemma validateEmail_rejects_spaces_and_extra_at_witness :
  Auth.validateEmail (js "ada@example.org") = true
  /\ js "ada@example.org" <> []
  /\ count_occ N.eq_dec (js "ada@example.org") 0x40%N = 1
  /\ Auth.validateEmail (js "ada@@example.org") = false
  /\ Auth.validateEmail (js "ada lovelace@example.org") = false
  /\ Auth.validateEmail (js "ada@example") = false.
Proof.
  assert (Auth.validateEmail (js "ada@example.org") = true) as H
    by (vm_compute; reflexivity).
  destruct (validateEmail_rejects_spaces_and_extra_at
              (js "ada@example.org") H) as (Hne & _ & Hat).
  split; [exact H|]. split; [exact Hne|]. split; [exact Hat|].
  repeat split; vm_compute; reflexivity.
Defined.

Lemma login_rejects_invalid_input_witness :
  let stranger := Cases.visitor (js "ada example.org") (js "s3cret!") in
  let hasty := Cases.visitor (js "ada@example.org") (js "s3c") in
  (Auth.validateEmail (js "ada example.org") = false
   /\ Auth.validateEmail (js "ada@example.org") = true
   /\ length (js "s3c") < 6)
  /\ Auth.error (Auth.form (Auth.handleSubmit stranger))
     = js "Please enter a valid email address"
  /\ Auth.error (Auth.form (Auth.handleSubmit hasty))
     = js "Password must be at least 6 characters long"
  /\ Auth.isAuthenticated (Auth.handleSubmit hasty) = false
  /\ Auth.navigated (Auth.handleSubmit hasty) = [].
Proof.
  intros stranger hasty.
  assert (Auth.validateEmail (js "ada example.org") = false) as H1
    by (vm_compute; reflexivity).
  assert (Auth.validateEmail (js "ada@example.org") = true) as H2
    by (vm_compute; reflexivity).
  assert (length (js "s3c") < 6) as H3 by (vm_compute; lia).
  destruct (login_rejects_invalid_input stranger) as [Hbad _].
  destruct (login_rejects_invalid_input hasty) as [_ Hshort].
  destruct (Hbad H1) as (He1 & _).
  destruct (Hshort H2 H3) as (He2 & Ha & Hn & _).
  split; [repeat split; assumption|].
  split; [exact He1|]. split; [exact He2|]. split; [exact Ha | exact Hn].
Defined.

Lemma login_succeeds_once_input_is_valid_witness :
  let ada := Cases.visitor (js "ada@example.org") (js "s3cret!") in
  (Auth.validateEmail (js "ada@example.org") = true
   /\ 6 <= length (js "s3cret!"))
  /\ Auth.isAuthenticated (Auth.handleSubmit ada) = true
  /\ Auth.navigated (Auth.handleSubmit ada) = [js "/chat"]
  /\ Auth.error (Auth.form (Auth.handleSubmit ada)) = []
  /\ Auth.isLoading (Auth.form (Auth.handleSubmit ada)) = false.
Proof.
  intros ada.
  assert (Auth.validateEmail (js "ada@example.org") = true) as H1
    by (vm_compute; reflexivity).
  assert (6 <= length (js "s3cret!")) as H2 by (vm_compute; lia).
  destruct (login_succeeds_once_input_is_valid ada) as [Hgood _].
  destruct (Hgood H1 H2) as (Ha & Hn & He & Hl).
  split; [split; [exact H1 | exact H2]|].
  split; [exact Ha|]. split; [exact Hn|]. split; [exact He | exact Hl].
Defined.

Lemma chat_view_needs_authentication_witness :
  let ada := Cases.visitor (js "ada@example.org") (js "s3cret!") in
  ((js "/chat", Auth.ChatView) ∈ Auth.AppRoutes true
   /\ Auth.validateEmail (js "ada@example.org") = true
   /\ 6 <= length (js "s3cret!"))
  /\ Auth.route_element
       (Auth.isAuthenticated (Auth.handleSubmit ada)) (js "/chat")
     = Some Auth.ChatView
  /\ Auth.route_element false (js "/chat")
     = Some (Auth.Navigate (js "/login")).
Proof.
  intros ada.
  assert ((js "/chat", Auth.ChatView) ∈ Auth.AppRoutes true) as H0.
  { unfold Auth.AppRoutes. do 2 apply list_elem_of_further.
    apply list_elem_of_here. }
  assert (Auth.validateEmail (js "ada@example.org") = true) as H1
    by (vm_compute; reflexivity).
  assert (6 <= length (js "s3cret!")) as H2 by (vm_compute; lia).
  destruct (chat_view_needs_authentication true ada)
    as (Hguard & Hout & _ & _ & Hin & _).
  destruct (Hguard _ _ H0 eq_refl) as [_ _].
  destruct (Hin H1 H2) as (target & Hlast & Hview).
  assert (Some target = Some (js "/chat")) as Htarget
    by (rewrite <- Hlast; vm_compute; reflexivity).
  injection Htarget as ->.
  split; [split; [exact H0 | split; [exact H1 | exact H2]]|].
  split; [exact Hview | exact Hout].
Defined.

Lemma unknown_command_reported_witness :
  let cl := store Samples.mounted in
  let command := js "/flibbertigibbet" in
  let key := replace_slash
               (trim (toLowerCase (Runtime := plain_runtime) command)) in
  (slashCommands (rt := plain_runtime) Samples.env cl !! key = None
   /\ key ∉ Object_prototype)
  /\ exists report,
       handleSlashCommand (rt := plain_runtime) Samples.env cl command
         Samples.mounted
       = (Normal true,
          exec (setMessages (fun prev => prev ++ [report])) Samples.mounted)
       /\ role report = system.
Proof.
  intros cl command key.
  assert (slashCommands (rt := plain_runtime) Samples.env cl !! key = None)
    as H1 by reflexivity.
  assert (key ∉ Object_prototype) as H2 by compute_done.
  destruct (unknown_command_reported (rt := plain_runtime) Samples.env cl
              command Samples.mounted H1 H2) as (report & Hrun & Hrole & _).
  split; [split; [exact H1 | exact H2]|].
  exists report. split; [exact Hrun | exact Hrole].
Defined.

Lemma pin_consistent_always_witness :
  let events :=
    [ (Samples.env, TogglePin Samples.hello);
      (Cases.env_voice, FetchSettled (Samples.reply 500 None)) ] in
  let w := Samples.chatting in
  (pin_consistent (store w)
   /\ fresh_for Samples.env (store w)
   /\ fresh_for Cases.env_voice
        (store (run (H := plain_runtime)
                  [(Samples.env, TogglePin Samples.hello)] w)))
  /\ pin_consistent (store (run (H := plain_runtime) events w)).
Proof.
  intros events w.
  assert (pin_consistent (store w)) as H1.
  { unfold pin_consistent. simpl.
    repeat constructor; try discriminate; intros E; inversion E. }
  assert (fresh_for Samples.env (store w)) as H2 by constructor.
  assert (fresh_for Cases.env_voice
            (store (run (H := plain_runtime)
                      [(Samples.env, TogglePin Samples.hello)] w))) as H3.
  { unfold fresh_for. simpl. repeat constructor.
    intros E. vm_compute in E. discriminate. }
  assert (forall before env ev after,
            events = before ++ (env, ev) :: after ->
            fresh_for env (store (run (H := plain_runtime) before w)))
    as Hall.
  { intros before env ev after E. subst events.
    destruct before as [|b1 [|b2 [|b3 before]]]; simpl in E.
    - injection E as <- _ _. exact H2.
    - injection E as <- <- _ _. exact H3.
    - injection E as _ _ E. discriminate E.
    - injection E as _ _ E. discriminate E. }
  split; [split; [exact H1 | split; [exact H2 | exact H3]]|].
  exact (pin_consistent_always (rt := plain_runtime) events w H1 Hall).
Defined.
